(** * protocol_graph: the header-diagram generator, embedded and verified

    A shallow embedding of [protocol_graph/__init__.py] (class [Protocol]):
    the spec parser [parse_spec], the line allocator [_process_field_list]
    and the renderer [__str__] with its helpers.

    Modelling conventions.
    - A Python [str] is a [string]; its characters are the code points
      below 256, one [ascii] each.  Python integers are [Z].
    - A field dictionary is the record [field]; the key ['MF'], which
      [_process_field_list] adds to the dictionaries, is an [option bool]
      ([None]: key absent).
    - The object state is the record [Protocol].  [_process_field_list] and
      [__str__] mutate the dictionaries of [self.field_list] in place, so
      both return the object state after the call next to their result.
    - Exceptions are values of [exn]; a function that may raise returns a
      [result].
    - Strings and lists are unbounded: allocation limits of an
      interpreter are not part of the model.  The float arithmetic of
      [__str__] (two true divisions, one product, one difference) is
      modelled exactly, on the integers a binary64 float can hold.
    - The loop of [_process_field_list] is run on fuel; [alloc_loop_total]
      shows that the fuel [_process_field_list] takes is enough whenever the
      line width is positive, as it is after [parse_spec]. *)

From Stdlib Require Import ZArith List String Ascii Bool Lia.
From Stdlib Require Import Decimal DecimalString DecimalN DecimalPos DecimalZ.
Import ListNotations.

Local Open Scope string_scope.
Local Open Scope Z_scope.

(* ================================================================= *)
(** ** Exceptions and results *)

Inductive exn : Type :=
| ProtocolException (msg : string)
| AssertionError
| IndexError
| KeyError
| OverflowError.

Inductive result (A : Type) : Type :=
| Ok (a : A)
| Raise (e : exn).

Arguments Ok {A} a.
Arguments Raise {A} e.

Definition bind {A B : Type} (r : result A) (k : A -> result B) : result B :=
  match r with
  | Ok a => k a
  | Raise e => Raise e
  end.

Notation "x <- r ;; k" := (bind r (fun x => k))
  (at level 61, r at next level, right associativity).

(* ================================================================= *)
(** ** The Python string and integer primitives the program uses *)

Module Py.

(** [len(s)] *)
Definition len (s : string) : Z := Z.of_nat (String.length s).

(** [s * n]: [n] copies of [s], none when [n <= 0]. *)
Fixpoint repeat_nat (s : string) (n : nat) : string :=
  match n with
  | O => ""
  | S n' => s ++ repeat_nat s n'
  end.

Definition mul (s : string) (n : Z) : string := repeat_nat s (Z.to_nat n).

(** Prefix and suffix by a number of characters. *)
Fixpoint take (n : nat) (s : string) : string :=
  match n, s with
  | S n', String c r => String c (take n' r)
  | _, _ => ""
  end.

Fixpoint drop (n : nat) (s : string) : string :=
  match n, s with
  | S n', String _ r => drop n' r
  | _, _ => s
  end.

(** A slice bound as Python normalises it: negative bounds count from the
    end, and the result is clamped to [0 .. len s]. *)
Definition norm_index (s : string) (k : Z) : nat :=
  if k <? 0 then Z.to_nat (Z.max 0 (k + len s))
  else Z.to_nat (Z.min k (len s)).

(** [s[0:e]] *)
Definition slice_to (s : string) (e : Z) : string := take (norm_index s e) s.

(** [s[a:]] *)
Definition slice_from (s : string) (a : Z) : string := drop (norm_index s a) s.

(** [c in s] and [s.count(c)] for a one-character [c]. *)
Fixpoint count (c : ascii) (s : string) : Z :=
  match s with
  | "" => 0
  | String d r => (if Ascii.eqb d c then 1 else 0) + count c r
  end.

Definition contains (c : ascii) (s : string) : bool := 0 <? count c s.

(** [s.split(c)] for a one-character separator: always at least one piece. *)
Fixpoint split (c : ascii) (s : string) : list string :=
  match s with
  | "" => [""]
  | String d r =>
      if Ascii.eqb d c then "" :: split c r
      else match split c r with
           | p :: ps => String d p :: ps
           | [] => [String d ""]
           end
  end.

(** [sep.join(l)] *)
Fixpoint join (sep : string) (l : list string) : string :=
  match l with
  | [] => ""
  | [s] => s
  | s :: r => s ++ sep ++ join sep r
  end.

(** [s.lower()] on code points below 256: the ASCII capitals and the
    Latin-1 capitals U+00C0..U+00DE (U+00D7, the multiplication sign, is
    not a letter) move up by 32. *)
Definition lower_char (c : ascii) : ascii :=
  let n := Z.of_nat (nat_of_ascii c) in
  if ((65 <=? n) && (n <=? 90))
     || ((192 <=? n) && (n <=? 222) && negb (n =? 215))
  then ascii_of_nat (Z.to_nat (n + 32))
  else c.

Fixpoint lower (s : string) : string :=
  match s with
  | "" => ""
  | String c r => String (lower_char c) (lower r)
  end.

(** [str.center(s, width)] with the space as fill character.  CPython puts
    [marg/2 + (marg & width & 1)] spaces on the left. *)
Definition center (s : string) (width : Z) : string :=
  if width <=? len s then s
  else
    let marg := width - len s in
    let left := marg / 2 + Z.land (Z.land marg width) 1 in
    mul " " left ++ s ++ mul " " (marg - left).

(** [str(i)].  (Beyond [max_str_digits] digits, below, [str] raises a
    [ValueError]; the program writes the column numbers of the ruler only,
    which are below the line width, and the line width is 32 or a number
    that [int] has read.) *)
Definition str (i : Z) : string := NilEmpty.string_of_int (Z.to_int i).

(** *** [int(s)]

    [int] turns every white-space character above U+007F into a space,
    strips ASCII white space from both ends, reads an optional sign and then
    decimal digits, where single underscores may stand between two digits.
    It reads no more than [max_str_digits] digits, leading zeros counted and
    underscores not: the interpreter's default for
    [sys.get_int_max_str_digits()]. *)
Definition max_str_digits : Z := 4300.

Definition is_digit (c : ascii) : bool :=
  let n := Z.of_nat (nat_of_ascii c) in (48 <=? n) && (n <=? 57).

Definition is_ascii_space (c : ascii) : bool :=
  let n := Z.of_nat (nat_of_ascii c) in
  (n =? 32) || ((9 <=? n) && (n <=? 13)).

Definition space_to_ascii (c : ascii) : ascii :=
  let n := Z.of_nat (nat_of_ascii c) in
  if (n =? 133) || (n =? 160) then " "%char else c.

Fixpoint map_chars (f : ascii -> ascii) (s : string) : string :=
  match s with
  | "" => ""
  | String c r => String (f c) (map_chars f r)
  end.

Fixpoint lstrip (s : string) : string :=
  match s with
  | String c r => if is_ascii_space c then lstrip r else s
  | "" => ""
  end.

Fixpoint rstrip (s : string) : string :=
  match s with
  | "" => ""
  | String c r =>
      match rstrip r with
      | "" => if is_ascii_space c then "" else String c ""
      | r' => String c r'
      end
  end.

(** The digits of a literal without its underscores; [prev] tells whether
    the previous character was a digit. *)
Fixpoint digits_of (prev : bool) (s : string) : option string :=
  match s with
  | "" => if prev then Some "" else None
  | String c r =>
      if is_digit c then option_map (String c) (digits_of true r)
      else if Ascii.eqb c "_" then
             if prev then digits_of false r else None
           else None
  end.

Definition nat_literal (s : string) : option Z :=
  match digits_of false s with
  | Some ds =>
      if max_str_digits <? len ds then None
      else option_map Z.of_uint (NilEmpty.uint_of_string ds)
  | None => None
  end.

(** [None] stands for the [ValueError] of [int]. *)
Definition int (s : string) : option Z :=
  match rstrip (lstrip (map_chars space_to_ascii s)) with
  | String "+" r => nat_literal r
  | String "-" r => option_map Z.opp (nat_literal r)
  | r => nat_literal r
  end.

End Py.

(* ================================================================= *)
(** ** The integers of binary64 arithmetic

    [__str__] computes [int(((field_len/self.bits_per_line)*2)-1)] with
    float operations.  It does so only where [field_len] is a multiple of
    [bits_per_line], so every float involved holds an integer, and the model
    keeps floats as the integers they hold. *)

Module Float.

(** The float nearest to the integer [n] (ties to even): 53 significant
    bits are kept. *)
Definition round_nonneg (n : Z) : Z :=
  if n <? 2 ^ 53 then n
  else
    let e := Z.log2 n - 52 in
    let q := n / 2 ^ e in
    let r := n mod 2 ^ e in
    let h := 2 ^ (e - 1) in
    let q' := if r <? h then q
              else if h <? r then q + 1
              else if Z.even q then q else q + 1 in
    q' * 2 ^ e.

Definition round (n : Z) : Z := Z.sgn n * round_nonneg (Z.abs n).

(** Magnitudes from [2^1024] on are beyond the finite floats. *)
Definition huge : Z := 2 ^ 1024.

(** [a / b] on integers, where [b] divides [a]: the quotient rounded to a
    float, [OverflowError] when that is not finite. *)
Definition truediv (a b : Z) : result Z :=
  let q := round (a / b) in
  if huge <=? Z.abs q then Raise OverflowError else Ok q.

(** [int(x * 2 - 1)] for a finite float [x] holding an integer.  The
    product is exact or infinite; [int] of an infinity raises
    [OverflowError]. *)
Definition int_twice_minus_one (x : Z) : result Z :=
  let m := x * 2 in
  if huge <=? Z.abs m then Raise OverflowError
  else Ok (round (m - 1)).

End Float.

(* ================================================================= *)
(** ** Data model *)

(** A field dictionary: keys ['text'] and ['len'], and ['MF'] ("more
    fragments") once [_process_field_list] has seen it. *)
Record field : Type := mkField {
  text : string;
  len : Z;
  MF : option bool
}.

Record Protocol : Type := mkProtocol {
  hdr_char_start : string;
  hdr_char_end : string;
  hdr_char_fill_odd : string;
  hdr_char_fill_even : string;
  hdr_char_sep : string;
  bits_per_line : Z;
  ph_num_per_bit : Z;
  do_print_top_tens : bool;
  do_print_top_units : bool;
  do_left_to_right_print : bool;
  field_list : list field
}.

Definition set_hdr_char_start (p : Protocol) (v : string) : Protocol :=
  mkProtocol v (hdr_char_end p) (hdr_char_fill_odd p) (hdr_char_fill_even p)
    (hdr_char_sep p) (bits_per_line p) (ph_num_per_bit p)
    (do_print_top_tens p) (do_print_top_units p) (do_left_to_right_print p)
    (field_list p).

Definition set_hdr_char_end (p : Protocol) (v : string) : Protocol :=
  mkProtocol (hdr_char_start p) v (hdr_char_fill_odd p) (hdr_char_fill_even p)
    (hdr_char_sep p) (bits_per_line p) (ph_num_per_bit p)
    (do_print_top_tens p) (do_print_top_units p) (do_left_to_right_print p)
    (field_list p).

Definition set_hdr_char_fill_odd (p : Protocol) (v : string) : Protocol :=
  mkProtocol (hdr_char_start p) (hdr_char_end p) v (hdr_char_fill_even p)
    (hdr_char_sep p) (bits_per_line p) (ph_num_per_bit p)
    (do_print_top_tens p) (do_print_top_units p) (do_left_to_right_print p)
    (field_list p).

Definition set_hdr_char_fill_even (p : Protocol) (v : string) : Protocol :=
  mkProtocol (hdr_char_start p) (hdr_char_end p) (hdr_char_fill_odd p) v
    (hdr_char_sep p) (bits_per_line p) (ph_num_per_bit p)
    (do_print_top_tens p) (do_print_top_units p) (do_left_to_right_print p)
    (field_list p).

Definition set_hdr_char_sep (p : Protocol) (v : string) : Protocol :=
  mkProtocol (hdr_char_start p) (hdr_char_end p) (hdr_char_fill_odd p)
    (hdr_char_fill_even p) v (bits_per_line p) (ph_num_per_bit p)
    (do_print_top_tens p) (do_print_top_units p) (do_left_to_right_print p)
    (field_list p).

Definition set_bits_per_line (p : Protocol) (v : Z) : Protocol :=
  mkProtocol (hdr_char_start p) (hdr_char_end p) (hdr_char_fill_odd p)
    (hdr_char_fill_even p) (hdr_char_sep p) v (ph_num_per_bit p)
    (do_print_top_tens p) (do_print_top_units p) (do_left_to_right_print p)
    (field_list p).

(** [numbers] sets both ruler switches at once. *)
Definition set_print_top (p : Protocol) (tens units : bool) : Protocol :=
  mkProtocol (hdr_char_start p) (hdr_char_end p) (hdr_char_fill_odd p)
    (hdr_char_fill_even p) (hdr_char_sep p) (bits_per_line p)
    (ph_num_per_bit p) tens units (do_left_to_right_print p) (field_list p).

Definition set_field_list (p : Protocol) (l : list field) : Protocol :=
  mkProtocol (hdr_char_start p) (hdr_char_end p) (hdr_char_fill_odd p)
    (hdr_char_fill_even p) (hdr_char_sep p) (bits_per_line p)
    (ph_num_per_bit p) (do_print_top_tens p) (do_print_top_units p)
    (do_left_to_right_print p) l.

(** The state [__init__] sets up before it calls [parse_spec]. *)
Definition initial : Protocol :=
  {| hdr_char_start := "+";
     hdr_char_end := "+";
     hdr_char_fill_odd := "+";
     hdr_char_fill_even := "-";
     hdr_char_sep := "|";
     bits_per_line := 32;
     ph_num_per_bit := 1;
     do_print_top_tens := true;
     do_print_top_units := true;
     do_left_to_right_print := true;
     field_list := [] |}.

(* ================================================================= *)
(** ** [parse_spec] *)

(** [l.append(x)] *)
Definition appended {A : Type} (l : list A) (x : A) : list A :=
  (l ++ [x])%list.

Definition mem (s : string) (l : list string) : bool :=
  existsb (String.eqb s) l.

Definition invalid_fields (spec : string) : exn :=
  ProtocolException ("FATAL: Invalid field_list specification (" ++ spec ++ ")").

Definition invalid_options (opt : string) : exn :=
  ProtocolException ("FATAL: Invalid options specification (" ++ opt ++ ")").

(** One round of the loop over the field items: the [try] block and the
    [append] after it.  Whatever is not a [ProtocolException] (a wrong
    number of [":"], a [bits] that [int] refuses) becomes one. *)
Definition parse_item (spec : string) (self : Protocol) (item : string)
  : result Protocol :=
  match Py.split ":" item with
  | [text; bits] =>
      match Py.int bits with
      | Some bits =>
          if bits <=? 0 then
            Raise (ProtocolException
                     ("FATAL: Fields must be at least one bit long ("
                        ++ spec ++ ")"))
          else
            Ok (set_field_list self
                  (appended (field_list self) (mkField text bits None)))
      | None => Raise (invalid_fields spec)
      end
  | _ => Raise (invalid_fields spec)
  end.

(** One round of the loop over the options.  A key that no branch
    recognises falls through all of them and changes nothing. *)
Definition parse_opt (self : Protocol) (opt : string) : result Protocol :=
  match Py.split "=" opt with
  | [var; value] =>
      if String.eqb (Py.lower var) "bits" then
        match Py.int value with
        | Some b =>
            if b <=? 0 then
              Raise (ProtocolException
                       ("FATAL: Invalid value for 'bits' option ("
                          ++ value ++ ")"))
            else Ok (set_bits_per_line self b)
        | None => Raise (invalid_options opt)
        end
      else if String.eqb (Py.lower var) "numbers" then
        if mem (Py.lower value) ["0"; "n"; "no"; "none"; "false"] then
          Ok (set_print_top self false false)
        else if mem (Py.lower value) ["1"; "y"; "yes"; "none"; "true"] then
          Ok (set_print_top self true true)
        else
          Raise (ProtocolException
                   ("FATAL: Invalid value for 'numbers' option ("
                      ++ value ++ ")"))
      else if mem (Py.lower var)
                ["oddchar"; "evenchar"; "startchar"; "endchar"; "sepchar"] then
        if (1 <? Py.len value) || (Py.len value <=? 0) then
          Raise (ProtocolException
                   ("FATAL: Invalid value for '" ++ var ++ "' option ("
                      ++ value ++ ")"))
        else if String.eqb (Py.lower var) "oddchar" then Ok (set_hdr_char_fill_odd self value)
        else if String.eqb (Py.lower var) "evenchar" then Ok (set_hdr_char_fill_even self value)
        else if String.eqb (Py.lower var) "startchar" then Ok (set_hdr_char_start self value)
        else if String.eqb (Py.lower var) "endchar" then Ok (set_hdr_char_end self value)
        else if String.eqb (Py.lower var) "sepchar" then Ok (set_hdr_char_sep self value)
        else Ok self
      else Ok self
  | _ => Raise (invalid_options opt)
  end.

(** A [for] loop whose body may raise. *)
Fixpoint for_each {A S : Type} (body : S -> A -> result S) (l : list A)
  (s : S) : result S :=
  match l with
  | [] => Ok s
  | a :: r => s' <- body s a ;; for_each body r s'
  end.

Definition parse_spec (self : Protocol) (spec : string) : result Protocol :=
  fo <- (if Py.contains "?" spec then
           match Py.split "?" spec with
           | fields :: opts :: _ =>
               if 1 <? Py.count "?" spec then
                 Raise (ProtocolException
                          "FATAL: Character '?' may only be used as an option separator.")
               else Ok (fields, Some opts)
           | _ => Raise IndexError
           end
         else Ok (spec, None)) ;;
  self <- for_each (parse_item spec) (Py.split "," (fst fo)) self ;;
  match snd fo with
  | Some opts => for_each parse_opt (Py.split "," opts) self
  | None => Ok self
  end.

(** [Protocol(spec)]: the constructor. *)
Definition __init__ (spec : string) : result Protocol :=
  parse_spec initial spec.

(* ================================================================= *)
(** ** Border and ruler helpers *)

(** The newline character. *)
Definition nl : string := String (ascii_of_nat 10) "".

(** [range(0, n)] *)
Definition range (n : Z) : list Z := map Z.of_nat (seq 0 (Z.to_nat n)).

(** [s[0]] of a string that is not empty. *)
Definition first_char (s : string) : string :=
  match s with
  | String c _ => String c ""
  | "" => ""
  end.

(** [_get_top_numbers]: [None] when neither ruler row is printed. *)
Definition _get_top_numbers (self : Protocol) : option string :=
  let ph := ph_num_per_bit self in
  let ltr := do_left_to_right_print self in
  let line0 :=
    if do_print_top_tens self then
      fold_left
        (fun line i =>
           if String.eqb (Py.slice_from (Py.str i) (-1)) "0" then
             if ltr then line ++ Py.mul " " (ph * 2 - 1) ++ first_char (Py.str i)
             else Py.mul " " (ph * 2 - 1) ++ first_char (Py.str i) ++ line
           else
             if ltr then line ++ Py.mul "  " ph
             else Py.mul "  " ph ++ line)
        (range (bits_per_line self)) "" ++ nl
    else "" in
  let line1 :=
    if do_print_top_units self then
      fold_left
        (fun line i =>
           if ltr then
             line ++ Py.mul " " (ph * 2 - 1) ++ Py.slice_from (Py.str i) (-1)
           else
             Py.mul " " (ph * 2 - 1) ++ Py.slice_from (Py.str i) (-1) ++ line)
        (range (bits_per_line self)) ""
    else "" in
  let result := line0 ++ line1 in
  if 0 <? Py.len result then Some result else None.

(** [_get_horizontal(width)]; [None] is the default argument. *)
Definition _get_horizontal (self : Protocol) (width : option Z) : string :=
  let width := match width with
               | Some w => w
               | None => bits_per_line self
               end in
  if width <=? 0 then ""
  else if do_left_to_right_print self then
    let a := hdr_char_start self in
    let b := Py.mul (hdr_char_fill_even self ++ hdr_char_fill_odd self)
               (width * ph_num_per_bit self) in
    let c := hdr_char_end self in
    a ++ Py.slice_to b (-1) ++ c
  else
    let d := Py.mul "  " ((bits_per_line self - width) * ph_num_per_bit self) in
    let a := hdr_char_start self in
    let b := Py.mul (hdr_char_fill_odd self ++ hdr_char_fill_even self)
               (width * ph_num_per_bit self) in
    let c := hdr_char_end self in
    d ++ c ++ Py.slice_from b 1 ++ a.

Definition _get_separator (self : Protocol) : string := hdr_char_sep self.

(* ================================================================= *)
(** ** [_process_field_list] *)

(** The local variables of the loop and the field list it mutates. *)
Record alloc_state : Type := mkAlloc {
  new_fields : list field;
  bits_in_line : Z;
  idx : nat;
  fields_now : list field
}.

(** [field_list[i] = v] *)
Fixpoint update {A : Type} (l : list A) (i : nat) (v : A) : list A :=
  match l, i with
  | [], _ => []
  | _ :: r, O => v :: r
  | a :: r, S i' => a :: update r i' v
  end.

(** One round of the [while] loop, on the field [field_list[i]].  The
    dictionary appended to [new_fields] in the first two cases is the one of
    [field_list], with the ['MF'] key just set; in the last case the
    dictionary of [field_list] becomes the remainder and is seen again in
    the next round. *)
Definition alloc_body (bpl : Z) (st : alloc_state) (field : field)
  : alloc_state :=
  let field_text := text field in
  let field_len := len field in
  let bits := bits_in_line st in
  let available_in_line := bpl - bits in
  if field_len <=? available_in_line then
    let field := mkField field_text field_len (Some false) in
    let bits := bits + field_len in
    mkAlloc (appended (new_fields st) field)
      (if bits =? bpl then 0 else bits)
      (S (idx st))
      (update (fields_now st) (idx st) field)
  else if (bits =? 0) && (field_len mod bpl =? 0) then
    let field := mkField field_text field_len (Some false) in
    mkAlloc (appended (new_fields st) field) 0 (S (idx st))
      (update (fields_now st) (idx st) field)
  else if field_len - available_in_line <=? available_in_line then
    mkAlloc (appended (new_fields st)
               (mkField field_text available_in_line (Some true)))
      0 (idx st)
      (update (fields_now st) (idx st)
         (mkField "" (field_len - available_in_line) (Some false)))
  else
    mkAlloc (appended (new_fields st)
               (mkField "" available_in_line (Some true)))
      0 (idx st)
      (update (fields_now st) (idx st)
         (mkField field_text (field_len - available_in_line) (Some false))).

(** The [while] loop, for at most [fuel] rounds; [None]: out of fuel. *)
Fixpoint alloc_loop (bpl : Z) (fuel : nat) (st : alloc_state)
  : option (list field * list field) :=
  match nth_error (fields_now st) (idx st) with
  | None => Some (new_fields st, fields_now st)
  | Some field =>
      match fuel with
      | O => None
      | S fuel' => alloc_loop bpl fuel' (alloc_body bpl st field)
      end
  end.

(** Rounds that are always enough: a round either finishes a field or takes
    at least one bit off it. *)
Definition alloc_fuel (l : list field) : nat :=
  fold_right (fun f n => (S (Z.to_nat (len f)) + n)%nat) O l.

(** [_process_field_list]: the fragments, and the field list as the call
    leaves it. *)
Definition process_from (bpl : Z) (l : list field)
  : option (list field * list field) :=
  alloc_loop bpl (alloc_fuel l) (mkAlloc [] 0 O l).

Definition _process_field_list (self : Protocol)
  : option (list field * Protocol) :=
  match process_from (bits_per_line self) (field_list self) with
  | Some (frags, l) => Some (frags, set_field_list self l)
  | None => None
  end.

(* ================================================================= *)
(** ** [__str__] *)

(** The local variables of the loop over [proto_fields]. *)
Record render_state : Type := mkRender {
  r_bits_in_line : Z;
  r_current_line : string;
  r_fields_done : Z;
  r_lines : list string
}.

(** The label of a fragment as it is printed: cut to the width of the cell,
    with a dot in the last place when more than one place is left. *)
Definition truncate (self : Protocol) (field_text : string) (field_len : Z)
  : string :=
  let ph := ph_num_per_bit self in
  if field_len * 2 * ph - 1 <? Py.len field_text then
    let t := Py.slice_to field_text (field_len * 2 * ph - 1) in
    if ph <? Py.len t then Py.slice_to t (-1) ++ "." else t
  else field_text.

(** The line under a printed line that the fragment of width [field_len],
    with more fragments to come, has just completed; [next_len] is the width
    of [proto_fields[p+1]]. *)
Definition floor_line (self : Protocol) (field_len next_len : Z) : string :=
  let bpl := bits_per_line self in
  let ph := ph_num_per_bit self in
  let ltr := do_left_to_right_print self in
  if bpl - field_len <? next_len then
    let line_left :=
      if ltr then _get_horizontal self (Some (bpl - field_len))
      else Py.slice_from (_get_horizontal self (Some (bpl - field_len)))
             (field_len * 2 * ph) in
    let line_left :=
      if Py.len line_left =? 0 then hdr_char_start self else line_left in
    let center_right :=
      if bpl <=? next_len then
        (Py.mul " " (2 * field_len * ph - 1), hdr_char_end self)
      else
        (Py.mul " " (2 * (next_len - (bpl - field_len)) * ph - 1),
         if ltr then _get_horizontal self (Some (bpl - next_len))
         else Py.slice_from (_get_horizontal self (Some (bpl - next_len)))
                (next_len * 2 * ph)) in
    if ltr then line_left ++ fst center_right ++ snd center_right
    else snd center_right ++ fst center_right ++ line_left
  else _get_horizontal self None.

(** How many text rows a field of [field_len] bits, a multiple of the line
    width, takes: [int(((field_len/self.bits_per_line)*2)-1)].  The row with
    the text is [int(lines_to_print/2)]: the count is an integer that a
    float holds, so is its half up to one binary place, the division is
    exact, and [int] cuts the half off: [Z.quot lines_to_print 2] below. *)
Definition lines_to_print (self : Protocol) (field_len : Z) : result Z :=
  x <- Float.truediv field_len (bits_per_line self) ;;
  Float.int_twice_minus_one x.

(** The rows of a field that spans whole lines: row [i] of the
    [lines_to_print] rows, and the border after the last one. *)
Definition block_row (self : Protocol) (field_text : string)
  (lines_to_print central_line i : Z) : list string :=
  let width := bits_per_line self * 2 * ph_num_per_bit self - 1 in
  let start_line := if i mod 2 =? 1 then hdr_char_start self
                    else hdr_char_sep self in
  let end_line := if i mod 2 =? 1 then hdr_char_end self
                  else hdr_char_sep self in
  let row := start_line
             ++ (if i =? central_line then Py.center field_text width
                 else Py.mul " " width)
             ++ end_line in
  if i =? lines_to_print - 1 then [row; _get_horizontal self None]
  else [row].

(** The loop over [proto_fields]: [fs] is [proto_fields[p:]] and [n] is
    [len(proto_fields)]. *)
Fixpoint render_fields (self : Protocol) (n : Z) (fs : list field)
  (st : render_state) : result (list string) :=
  match fs with
  | [] => Ok (r_lines st)
  | field :: rest =>
      let bpl := bits_per_line self in
      let ph := ph_num_per_bit self in
      let ltr := do_left_to_right_print self in
      let field_len := len field in
      match MF field with
      | None => Raise KeyError
      | Some field_mf =>
          let field_text := truncate self (text field) field_len in
          let bits := r_bits_in_line st in
          if field_len <=? bpl - bits then
            let line := if bits =? 0
                        then r_current_line st ++ _get_separator self
                        else r_current_line st in
            let cell := Py.center field_text (field_len * 2 * ph - 1) in
            let line := if ltr then line ++ cell else cell ++ line in
            let bits := bits + field_len in
            let done := r_fields_done st + 1 in
            if bits =? bpl then
              let line := if ltr then line ++ _get_separator self
                          else _get_separator self ++ line in
              let lines := appended (r_lines st) line in
              if field_mf then
                match rest with
                | next :: _ =>
                    render_fields self n rest
                      (mkRender 0 "" done
                         (appended lines (floor_line self field_len (len next))))
                | [] => Raise IndexError
                end
              else
                render_fields self n rest
                  (mkRender 0 "" done (appended lines (_get_horizontal self None)))
            else if done =? n then
              let lines :=
                if ltr then
                  appended (r_lines st) (line ++ _get_separator self)
                else
                  appended (r_lines st)
                    (Py.mul " " ((bpl - bits) * 2 * ph)
                       ++ (_get_separator self ++ line)) in
              render_fields self n rest
                (mkRender bits
                   (if ltr then line ++ _get_separator self
                    else _get_separator self ++ line)
                   done
                   (appended lines (_get_horizontal self (Some bits))))
            else
              render_fields self n rest
                (mkRender bits
                   (if ltr then line ++ hdr_char_sep self
                    else hdr_char_sep self ++ line)
                   done (r_lines st))
          else if bits =? 0 then
            if field_len mod bpl =? 0 then
              match lines_to_print self field_len with
              | Raise e => Raise e
              | Ok lines_to_print =>
                  let central_line := Z.quot lines_to_print 2 in
                  render_fields self n rest
                    (mkRender bits (r_current_line st)
                       (if 0 <? lines_to_print then r_fields_done st + 1
                        else r_fields_done st)
                       (r_lines st
                          ++ flat_map
                               (block_row self field_text lines_to_print
                                  central_line)
                               (range lines_to_print))%list)
              end
            else render_fields self n rest st
          else Raise AssertionError
      end
  end.

(** [str(self)]: the text, or the exception, and the object as the call
    leaves it.  [None]: the allocation ran out of fuel. *)
Definition __str__ (self : Protocol) : option (result string * Protocol) :=
  match _process_field_list self with
  | None => None
  | Some (proto_fields, self') =>
      let lines := match _get_top_numbers self' with
                   | Some numbers => [numbers]
                   | None => []
                   end in
      let lines := appended lines (_get_horizontal self' None) in
      Some (match render_fields self' (Z.of_nat (List.length proto_fields))
                    proto_fields (mkRender 0 "" 0 lines) with
            | Ok lines => Ok (Py.join nl lines)
            | Raise e => Raise e
            end,
            self')
  end.

(** Construct, then print [k] times in a row. *)
Fixpoint prints (k : nat) (self : Protocol) : option (list (result string)) :=
  match k with
  | O => Some []
  | S k' =>
      match __str__ self with
      | None => None
      | Some (r, self') => option_map (cons r) (prints k' self')
      end
  end.

(** The object after [k] prints in a row. *)
Fixpoint printed (k : nat) (self : Protocol) : option Protocol :=
  match k with
  | O => Some self
  | S k' =>
      match __str__ self with
      | None => None
      | Some (_, self') => printed k' self'
      end
  end.

(* ================================================================= *)
(** ** Notions the statements use *)

(** Strings all of whose characters pass a test. *)
Fixpoint all_chars (f : ascii -> bool) (s : string) : bool :=
  match s with
  | "" => true
  | String c r => f c && all_chars f r
  end.

(** The field an item stands for, if it is a valid item: one [":"] and a
    positive length after it. *)
Definition field_of_item (item : string) : option field :=
  match Py.split ":" item with
  | [text; bits] =>
      match Py.int bits with
      | Some b => if b <=? 0 then None else Some (mkField text b None)
      | None => None
      end
  | _ => None
  end.

Definition fields_of_items (items : list string) : list field :=
  flat_map (fun item => match field_of_item item with
                        | Some f => [f]
                        | None => []
                        end) items.

Definition valid_item (item : string) : Prop := field_of_item item <> None.

(** The rendering options of an object: everything but the field list. *)
Definition same_options (p q : Protocol) : Prop :=
  set_field_list p [] = set_field_list q [].

(** Every way in which [parse_spec] fails is a [ProtocolException]. *)
Definition is_protocol_exception {A : Type} (r : result A) : Prop :=
  exists msg, r = Raise (ProtocolException msg).


(** What the value of the [numbers] option asks for: the falsy tokens
    [0 n no none false] switch the ruler off, the truthy tokens
    [1 y yes true] switch it on, anything else is refused; letter case does
    not matter. *)
Definition numbers_setting (v : string) : option bool :=
  if mem (Py.lower v) ["0"; "n"; "no"; "none"; "false"] then Some false
  else if mem (Py.lower v) ["1"; "y"; "yes"; "true"] then Some true
  else None.

(** The message of the exception for more than one ["?"]. *)
Definition separator_message : string :=
  "FATAL: Character '?' may only be used as an option separator.".

(** *** The allocation, field by field

    [Alloc bpl b l frags l'] describes a run of the loop of
    [_process_field_list] that starts with [b] bits in the line and the
    fields [l] still to do: it appends [frags] to [new_fields] and leaves
    the fields as [l'].  One rule for each branch of the loop body. *)

(** A dictionary once the loop has set its ['MF'] key. *)
Definition seen (f : field) : field := mkField (text f) (len f) (Some false).

(** The two halves of a split: the fragment that fills the line, and what
    the dictionary of the field becomes. *)
Definition piece (bpl b : Z) (f : field) : field :=
  mkField (if len f - (bpl - b) <=? bpl - b then text f else "")
    (bpl - b) (Some true).

Definition remainder (bpl b : Z) (f : field) : field :=
  mkField (if len f - (bpl - b) <=? bpl - b then "" else text f)
    (len f - (bpl - b)) (Some false).

Inductive Alloc (bpl : Z) : Z -> list field -> list field -> list field -> Prop :=
| Alloc_done (b : Z) : Alloc bpl b [] [] []
| Alloc_fit (b : Z) (f : field) (r frags r' : list field) :
    (len f <=? bpl - b) = true ->
    Alloc bpl (if b + len f =? bpl then 0 else b + len f) r frags r' ->
    Alloc bpl b (f :: r) (seen f :: frags) (seen f :: r')
| Alloc_block (b : Z) (f : field) (r frags r' : list field) :
    (len f <=? bpl - b) = false ->
    (b =? 0) && (len f mod bpl =? 0) = true ->
    Alloc bpl 0 r frags r' ->
    Alloc bpl b (f :: r) (seen f :: frags) (seen f :: r')
| Alloc_split (b : Z) (f : field) (r frags r' : list field) :
    (len f <=? bpl - b) = false ->
    (b =? 0) && (len f mod bpl =? 0) = false ->
    Alloc bpl 0 (remainder bpl b f :: r) frags r' ->
    Alloc bpl b (f :: r) (piece bpl b f :: frags) r'.

(** The state the loop is in when the fields [done] are behind it and the
    fields [rest] are still to do. *)
Definition at_field (nf : list field) (b : Z) (done rest : list field)
  : alloc_state :=
  mkAlloc nf b (List.length done) (done ++ rest).

(** The bits of a list of fields or fragments. *)
Definition sum_len (l : list field) : Z :=
  fold_right (fun f a => len f + a) 0 l.

(** Field lists as [parse_spec] builds them: every length is positive. *)
Definition positive_fields (l : list field) : Prop :=
  Forall (fun f => 0 < len f) l.

(** What holds of every object [parse_spec] builds. *)
Record parsed (p : Protocol) : Prop := mkParsed {
  parsed_bits : 0 < bits_per_line p;
  parsed_ph : ph_num_per_bit p = 1;
  parsed_ltr : do_left_to_right_print p = true;
  parsed_fields : positive_fields (field_list p);
  parsed_start : Py.len (hdr_char_start p) = 1;
  parsed_end : Py.len (hdr_char_end p) = 1;
  parsed_odd : Py.len (hdr_char_fill_odd p) = 1;
  parsed_even : Py.len (hdr_char_fill_even p) = 1;
  parsed_sep : Py.len (hdr_char_sep p) = 1
}.

(** The fragments [g], in their order, are the field [f] cut up: together
    they have its bits, and their texts, put end to end, are its text. *)
Definition reassembles (g : list field) (f : field) : Prop :=
  g <> [] /\ sum_len g = len f /\ String.concat "" (map text g) = text f.

(** A fragment of [len] bits, after [before] bits of earlier fragments,
    is emitted in one piece iff it fits in the rest of its line, or starts a
    line and fills whole lines. *)
Definition in_one_piece (bpl before len : Z) : Prop :=
  len <= bpl - before mod bpl \/ (before mod bpl = 0 /\ len mod bpl = 0).

(** The line under a printed line that a fragment with more fragments to
    come has completed, told by what is on that line: [before] bits stand
    before the fragment of [field_len] bits, and the next fragment, of
    [next_len] bits, reaches [next_len - before] bits under it.  When it
    does not reach under it at all, the line is the full border.
    Otherwise it is the border under the bits before the fragment, then a
    gap for the bits of overlap (no more of them than the fragment has),
    then the border under what is left of the line, or the end
    character. *)
Definition floor_under (self : Protocol) (before field_len next_len : Z)
  : string :=
  let overlap := next_len - before in
  if 0 <? overlap then
    (if before =? 0 then hdr_char_start self
     else _get_horizontal self (Some before))
    ++ Py.mul " " (2 * Z.min overlap field_len - 1)
    ++ (if field_len <=? overlap then hdr_char_end self
        else _get_horizontal self (Some (bits_per_line self - next_len)))
  else _get_horizontal self None.

(** The one way in which printing the fragments of the fields [l] may go
    wrong: an [OverflowError], and then one of the fields is more than
    [2^52] lines long. *)
Definition overflow_only {A : Type} (r : result A) (bpl : Z) (l : list field)
  : Prop :=
  match r with
  | Ok _ => True
  | Raise e => e = OverflowError /\ Exists (fun f => 2 ^ 52 * bpl < len f) l
  end.

(** The spec of one field [A] of [10^400] bits: ["A:1"] and 400 zeros. *)
Definition huge_field_spec : string := "A:1" ++ Py.mul "0" 400.

(** An option token whose key is not [numbers]. *)
Definition other_option (o : string) : Prop :=
  match Py.split "=" o with
  | [var; _] => Py.lower var <> "numbers"
  | _ => True
  end.

(* ================================================================= *)
(** ** Further notions *)

(** The part of a spec before its first ['?']: [spec.split("?")[0]]. *)
Definition fields_part (spec : string) : string :=
  hd "" (Py.split "?" spec).

(** A field written as an item, and a list of fields written as a spec. *)
Definition item_of_field (f : field) : string :=
  text f ++ ":" ++ Py.str (len f).

Definition spec_of_fields (l : list field) : string :=
  Py.join "," (map item_of_field l).

(** A name that can stand in an item: none of the separators in it. *)
Definition plain_name (s : string) : Prop :=
  Py.count "," s = 0 /\ Py.count ":" s = 0 /\ Py.count "?" s = 0.

(** The keys [parse_spec] knows. *)
Definition known_keys : list string :=
  ["bits"; "numbers"; "oddchar"; "evenchar"; "startchar"; "endchar";
   "sepchar"].

(** The object after a one-character option with the (lowered) key [key]. *)
Definition set_char (key : string) (p : Protocol) (v : string) : Protocol :=
  if String.eqb key "oddchar" then set_hdr_char_fill_odd p v
  else if String.eqb key "evenchar" then set_hdr_char_fill_even p v
  else if String.eqb key "startchar" then set_hdr_char_start p v
  else if String.eqb key "endchar" then set_hdr_char_end p v
  else if String.eqb key "sepchar" then set_hdr_char_sep p v
  else p.

(** The part of a spec after its first ['?']: [spec.split("?")[1]]. *)
Definition options_part (spec : string) : string :=
  nth 1 (Py.split "?" spec) "".

(** The fragments [g] of one field [f], by their keys: all but the last
    have more fragments to come, the last has not; all have a positive
    width; and exactly one of them carries the text of the field, the
    others the empty text. *)
Definition cut_up (g : list field) (f : field) : Prop :=
  (exists pieces last,
      g = (pieces ++ [last])%list
      /\ Forall (fun x => MF x = Some true /\ 0 < len x) pieces
      /\ MF last = Some false /\ 0 < len last)
  /\ exists before after,
      map text g = (before ++ [text f] ++ after)%list
      /\ Forall (eq "") before /\ Forall (eq "") after.

(** What holds of a fragment that starts [start] bits into its line and
    has the fragments [c] after it. *)
Definition placed (bpl start : Z) (f : field) (c : list field) : Prop :=
  match MF f with
  | Some true => len f = bpl - start /\ c <> []
  | Some false => len f <= bpl - start \/ (start = 0 /\ len f mod bpl = 0)
  | None => False
  end.

(** A number that [int] and [str] can handle: written with no more than
    [Py.max_str_digits] digits. *)
Definition short_number (n : Z) : Prop :=
  Py.len (Py.str (Z.abs n)) <= Py.max_str_digits.



(* ================================================================= *)
(** ** Facts about the string primitives *)

Section StringFacts.

Variable c : ascii.

Lemma count_nonneg (s : string) : 0 <= Py.count c s.
Proof.
  induction s as [|d r IH]; simpl; [lia|].
  destruct (Ascii.eqb d c); lia.
Qed.

Lemma count_app (a b : string) :
  Py.count c (a ++ b) = Py.count c a + Py.count c b.
Proof.
  induction a as [|d r IH]; simpl; [reflexivity|].
  rewrite IH. lia.
Qed.

Lemma count_sep : Py.count c (String c "") = 1.
Proof. simpl. rewrite Ascii.eqb_refl. reflexivity. Qed.

Lemma split_not_nil (s : string) : Py.split c s <> [].
Proof.
  induction s as [|d r IH]; simpl; [discriminate|].
  destruct (Ascii.eqb d c); [discriminate|].
  destruct (Py.split c r); discriminate.
Qed.

Lemma split_length (s : string) :
  Z.of_nat (List.length (Py.split c s)) = Py.count c s + 1.
Proof.
  induction s as [|d r IH]; [reflexivity|].
  cbn [Py.split Py.count].
  destruct (Ascii.eqb d c).
  - cbn [List.length]. lia.
  - destruct (Py.split c r) as [|p ps] eqn:E.
    + exfalso. exact (split_not_nil r E).
    + cbn [List.length] in *. lia.
Qed.

Lemma split_none (s : string) : Py.count c s = 0 -> Py.split c s = [s].
Proof.
  induction s as [|d r IH]; [reflexivity|].
  cbn [Py.split Py.count]. intros H.
  pose proof (count_nonneg r).
  destruct (Ascii.eqb d c); [lia|].
  rewrite IH by lia. reflexivity.
Qed.

Lemma split_app (a b : string) :
  Py.count c a = 0 ->
  Py.split c (a ++ String c b) = a :: Py.split c b.
Proof.
  induction a as [|d r IH]; cbn [Py.split Py.count String.append]; intros H.
  - rewrite Ascii.eqb_refl. reflexivity.
  - pose proof (count_nonneg r).
    destruct (Ascii.eqb d c); [lia|].
    rewrite IH by lia. reflexivity.
Qed.

Lemma split_join (l : list string) :
  l <> [] ->
  Forall (fun s => Py.count c s = 0) l ->
  Py.split c (Py.join (String c "") l) = l.
Proof.
  induction l as [|s r IH]; [congruence|].
  intros _ H. inversion H as [|? ? Hs Hr]; subst.
  destruct r as [|s' r'].
  - cbn [Py.join]. apply split_none, Hs.
  - change (Py.join (String c "") (s :: s' :: r'))
      with (s ++ String c (Py.join (String c "") (s' :: r'))).
    rewrite split_app by exact Hs.
    rewrite IH by (exact Hr || discriminate). reflexivity.
Qed.

Lemma contains_count (s : string) :
  Py.contains c s = false <-> Py.count c s = 0.
Proof.
  unfold Py.contains. pose proof (count_nonneg s).
  destruct (Z.ltb_spec 0 (Py.count c s)); split; (lia || discriminate || reflexivity).
Qed.

End StringFacts.

Lemma all_chars_count (f : ascii -> bool) (c : ascii) (s : string) :
  all_chars f s = true -> f c = false -> Py.count c s = 0.
Proof.
  intros Hs Hc. induction s as [|d r IH]; [reflexivity|].
  cbn [all_chars Py.count] in *. apply andb_true_iff in Hs as [Hd Hr].
  destruct (Ascii.eqb_spec d c) as [->|_]; [congruence|].
  rewrite IH by exact Hr. reflexivity.
Qed.

(** *** [int(str(n))] *)

Lemma string_of_uint_digits (d : uint) :
  all_chars Py.is_digit (NilEmpty.string_of_uint d) = true.
Proof. induction d; cbn [NilEmpty.string_of_uint all_chars]; auto. Qed.

Lemma map_chars_digits (s : string) :
  all_chars Py.is_digit s = true -> Py.map_chars Py.space_to_ascii s = s.
Proof.
  induction s as [|c r IH]; [reflexivity|].
  cbn [all_chars Py.map_chars]. intros H.
  apply andb_true_iff in H as [Hc Hr]. rewrite IH by exact Hr.
  f_equal. unfold Py.space_to_ascii, Py.is_digit in *.
  destruct (Z.eqb_spec (Z.of_nat (nat_of_ascii c)) 133);
    destruct (Z.eqb_spec (Z.of_nat (nat_of_ascii c)) 160);
    cbn [orb]; try reflexivity; lia.
Qed.

Lemma digit_not_space (c : ascii) :
  Py.is_digit c = true -> Py.is_ascii_space c = false.
Proof. unfold Py.is_digit, Py.is_ascii_space. lia. Qed.

Lemma lstrip_digits (s : string) :
  all_chars Py.is_digit s = true -> Py.lstrip s = s.
Proof.
  destruct s as [|c r]; [reflexivity|].
  cbn [all_chars Py.lstrip]. intros H.
  apply andb_true_iff in H as [Hc _].
  rewrite (digit_not_space c Hc). reflexivity.
Qed.

Lemma rstrip_digits (s : string) :
  all_chars Py.is_digit s = true -> Py.rstrip s = s.
Proof.
  induction s as [|c r IH]; [reflexivity|].
  cbn [all_chars Py.rstrip]. intros H.
  apply andb_true_iff in H as [Hc Hr].
  rewrite IH by exact Hr. rewrite (digit_not_space c Hc).
  destruct r; reflexivity.
Qed.

Lemma digits_of_digits (s : string) (prev : bool) :
  all_chars Py.is_digit s = true -> s <> "" ->
  Py.digits_of prev s = Some s.
Proof.
  revert prev. induction s as [|c r IH]; [congruence|].
  cbn [all_chars Py.digits_of]. intros prev H _.
  apply andb_true_iff in H as [Hc Hr]. rewrite Hc.
  destruct r as [|c' r'].
  - reflexivity.
  - rewrite IH by (exact Hr || discriminate). reflexivity.
Qed.

Lemma int_digits (s : string) :
  all_chars Py.is_digit s = true -> Py.int s = Py.nat_literal s.
Proof.
  intros Hd. unfold Py.int.
  rewrite map_chars_digits, lstrip_digits, rstrip_digits by exact Hd.
  destruct s as [|c r]; [reflexivity|].
  cbn [all_chars] in Hd. apply andb_true_iff in Hd as [Hc _].
  destruct c as [[] [] [] [] [] [] [] []]; try reflexivity; discriminate Hc.
Qed.

(** [int] reads back what [str] writes, up to [max_str_digits] digits. *)
Lemma int_str_pos (p : positive) :
  Py.len (Py.str (Z.pos p)) <= Py.max_str_digits ->
  Py.int (Py.str (Z.pos p)) = Some (Z.pos p).
Proof.
  pose proof (string_of_uint_digits (Pos.to_uint p)) as Hd.
  unfold Py.str. cbn [Z.to_int NilEmpty.string_of_int]. intros Hshort.
  rewrite int_digits by exact Hd.
  unfold Py.nat_literal. rewrite digits_of_digits.
  - destruct (Z.ltb_spec Py.max_str_digits
                (Py.len (NilEmpty.string_of_uint (Pos.to_uint p)))); [lia|].
    rewrite NilEmpty.usu. cbn [option_map].
    unfold Z.of_uint. rewrite Unsigned.of_to. reflexivity.
  - exact Hd.
  - pose proof (Unsigned.to_uint_nonnil p) as Hn.
    destruct (Pos.to_uint p); [congruence| discriminate ..].
Qed.

(** Beyond that it refuses them. *)
Lemma int_str_long (p : positive) :
  Py.max_str_digits < Py.len (Py.str (Z.pos p)) ->
  Py.int (Py.str (Z.pos p)) = None.
Proof.
  pose proof (string_of_uint_digits (Pos.to_uint p)) as Hd.
  unfold Py.str. cbn [Z.to_int NilEmpty.string_of_int]. intros Hlong.
  rewrite int_digits by exact Hd.
  unfold Py.nat_literal. rewrite digits_of_digits.
  - destruct (Z.ltb_spec Py.max_str_digits
                (Py.len (NilEmpty.string_of_uint (Pos.to_uint p))));
      [reflexivity|lia].
  - exact Hd.
  - pose proof (Unsigned.to_uint_nonnil p) as Hn.
    destruct (Pos.to_uint p); [congruence| discriminate ..].
Qed.

Lemma str_pos_digits (p : positive) :
  all_chars Py.is_digit (Py.str (Z.pos p)) = true.
Proof. apply string_of_uint_digits. Qed.

(* ================================================================= *)
(** ** The parser *)

Lemma parse_item_valid (spec : string) (self : Protocol) (item : string)
  (f : field) :
  field_of_item item = Some f ->
  parse_item spec self item
  = Ok (set_field_list self (appended (field_list self) f)).
Proof.
  unfold field_of_item, parse_item.
  destruct (Py.split ":" item) as [|t [|b [|? ?]]]; try discriminate.
  destruct (Py.int b) as [n|]; [|discriminate].
  destruct (n <=? 0); [discriminate|].
  intros [= <-]. reflexivity.
Qed.

Lemma parse_item_invalid (spec : string) (self : Protocol) (item : string) :
  field_of_item item = None ->
  exists msg, parse_item spec self item = Raise (ProtocolException msg).
Proof.
  unfold field_of_item, parse_item, invalid_fields.
  destruct (Py.split ":" item) as [|t [|b [|? ?]]]; eauto.
  destruct (Py.int b) as [n|]; eauto.
  destruct (n <=? 0); eauto. discriminate.
Qed.

Lemma parse_items_valid (spec : string) (items : list string) :
  Forall valid_item items ->
  forall self,
    for_each (parse_item spec) items self
    = Ok (set_field_list self (field_list self ++ fields_of_items items)%list).
Proof.
  induction 1 as [|item items Hi _ IH]; intros self.
  - cbn. rewrite app_nil_r. destruct self; reflexivity.
  - unfold valid_item in Hi.
    destruct (field_of_item item) as [f|] eqn:E; [|congruence].
    cbn [for_each]. rewrite (parse_item_valid spec self item f E).
    cbn [bind]. rewrite IH. unfold fields_of_items. cbn [flat_map].
    rewrite E. unfold appended. cbn [field_list set_field_list].
    rewrite <- app_assoc. reflexivity.
Qed.

Lemma parse_opt_raises (self : Protocol) (opt : string) (e : exn) :
  parse_opt self opt = Raise e -> exists msg, e = ProtocolException msg.
Proof.
  unfold parse_opt, invalid_options.
  repeat match goal with
         | |- context [match ?x with _ => _ end] => destruct x
         end; intros [= <-]; eauto.
Qed.

Lemma parse_item_raises (spec : string) (self : Protocol) (item : string)
  (e : exn) :
  parse_item spec self item = Raise e -> exists msg, e = ProtocolException msg.
Proof.
  unfold parse_item, invalid_fields.
  repeat match goal with
         | |- context [match ?x with _ => _ end] => destruct x
         end; intros [= <-]; eauto.
Qed.

Lemma for_each_raises {A S : Type} (body : S -> A -> result S)
  (P : exn -> Prop) :
  (forall s a e, body s a = Raise e -> P e) ->
  forall l s e, for_each body l s = Raise e -> P e.
Proof.
  intros Hb. induction l as [|a r IH]; intros s e; cbn [for_each].
  - discriminate.
  - destruct (body s a) as [s'|e'] eqn:E; cbn [bind].
    + apply IH.
    + intros [= <-]. exact (Hb _ _ _ E).
Qed.

(** An option changes the object or not the same way whatever the object
    is, and never touches the field list. *)
Lemma parse_opt_frame (self self' other : Protocol) (opt : string) :
  parse_opt self opt = Ok self' ->
  field_list self' = field_list self
  /\ exists other', parse_opt other opt = Ok other'.
Proof.
  unfold parse_opt.
  repeat match goal with
         | |- context [match ?x with _ => _ end] => destruct x
         end; intros [= <-]; split; eauto.
Qed.

Lemma parse_opts_frame (opts : list string) :
  forall self self' other,
    for_each parse_opt opts self = Ok self' ->
    field_list self' = field_list self
    /\ exists other', for_each parse_opt opts other = Ok other'.
Proof.
  induction opts as [|o r IH]; intros self self' other; cbn [for_each].
  - intros [= <-]. eauto.
  - destruct (parse_opt self o) as [s1|] eqn:E; cbn [bind]; [|discriminate].
    intros H.
    destruct (parse_opt_frame self s1 other o E) as [Hf [o1 Ho]].
    destruct (IH s1 self' o1 H) as [Hf' [o2 Ho2]].
    rewrite Ho. cbn [bind]. split; [congruence|eauto].
Qed.

(** *** C8: the option separator *)

(** C8.  A spec string in which ['?'] occurs two or more times is rejected
    with a [ProtocolException], before any field or option is looked at. *)
Theorem two_separators_rejected (spec : string) :
  2 <= Py.count "?" spec ->
  __init__ spec = Raise (ProtocolException separator_message).
Proof.
  intros H. unfold __init__, parse_spec, Py.contains.
  pose proof (split_length "?" spec) as Hl.
  destruct (Z.ltb_spec 0 (Py.count "?" spec)) as [_|]; [|lia].
  destruct (Py.split "?" spec) as [|a [|b l]]; cbn [List.length] in Hl;
    try lia.
  destruct (Z.ltb_spec 1 (Py.count "?" spec)) as [_|]; [|lia].
  reflexivity.
Qed.

Lemma two_separators_rejected_witness :
  2 <= Py.count "?" "A:4?bits=4?x=1"
  /\ __init__ "A:4?bits=4?x=1" = Raise (ProtocolException separator_message).
Proof.
  assert (H : 2 <= Py.count "?" "A:4?bits=4?x=1") by (vm_compute; discriminate).
  split; [exact H | exact (two_separators_rejected _ H)].
Defined.

(** *** C9: the defaults *)




(** A spec without ['?'] with an item that is not valid is rejected. *)
Lemma invalid_item_rejected (spec : string) :
  Py.contains "?" spec = false ->
  ~ Forall valid_item (Py.split "," spec) ->
  is_protocol_exception (__init__ spec).
Proof.
  intros Hq Hn. unfold __init__, parse_spec. rewrite Hq. cbn [bind fst snd].
  destruct (for_each (parse_item spec) (Py.split "," spec) initial)
    as [p|e] eqn:E; cbn [bind].
  - exfalso. apply Hn. clear Hq Hn. revert E. generalize initial.
    induction (Py.split "," spec) as [|item items IH]; intros self E.
    + constructor.
    + cbn [for_each] in E.
      destruct (field_of_item item) as [f|] eqn:Ef.
      * rewrite (parse_item_valid _ _ _ _ Ef) in E. cbn [bind] in E.
        constructor; [unfold valid_item; congruence | exact (IH _ E)].
      * destruct (parse_item_invalid spec self item Ef) as [msg Hm].
        rewrite Hm in E. discriminate.
  - destruct (for_each_raises (parse_item spec)
                (fun e => exists msg, e = ProtocolException msg)
                (parse_item_raises spec) _ _ _ E) as [msg ->].
    exists msg. reflexivity.
Qed.

(** *** C10: the empty field name *)

Lemma field_of_unnamed_item (p : positive) :
  Py.len (Py.str (Z.pos p)) <= Py.max_str_digits ->
  field_of_item (":" ++ Py.str (Z.pos p)) = Some (mkField "" (Z.pos p) None).
Proof.
  intros Hshort. unfold field_of_item.
  change (":" ++ Py.str (Z.pos p)) with ("" ++ String ":" (Py.str (Z.pos p))).
  rewrite split_app by reflexivity.
  rewrite split_none
    by (apply (all_chars_count Py.is_digit);
        [apply str_pos_digits | reflexivity]).
  rewrite int_str_pos by exact Hshort. reflexivity.
Qed.

Lemma fields_of_valid_items (items : list string) :
  Forall valid_item items ->
  List.length (fields_of_items items) = List.length items.
Proof.
  induction 1 as [|item items Hi _ IH]; [reflexivity|].
  unfold fields_of_items in *. cbn [flat_map].
  unfold valid_item in Hi. destruct (field_of_item item); [|congruence].
  cbn [List.app List.length]. rewrite IH. reflexivity.
Qed.

Lemma fields_of_items_app (l1 l2 : list string) :
  fields_of_items (l1 ++ l2) = (fields_of_items l1 ++ fields_of_items l2)%list.
Proof. unfold fields_of_items. apply flat_map_app. Qed.

Lemma join_count (c : ascii) (l : list string) :
  Forall (fun s => Py.count c s = 0) l ->
  forall d, d <> c -> Py.count c (Py.join (String d "") l) = 0.
Proof.
  intros H d Hd. induction H as [|s r Hs Hr IH]; [reflexivity|].
  destruct r as [|s' r']; [exact Hs|].
  change (Py.join (String d "") (s :: s' :: r'))
    with (s ++ String d "" ++ Py.join (String d "") (s' :: r')).
  rewrite !count_app, Hs, IH. cbn [Py.count].
  destruct (Ascii.eqb_spec d c); [congruence|reflexivity].
Qed.

Lemma app_empty_r (s : string) : s ++ "" = s.
Proof. induction s as [|c r IH]; cbn; [|rewrite IH]; reflexivity. Qed.

Lemma count_digits_sep (c : ascii) (p : positive) :
  Py.is_digit c = false -> Py.count c (":" ++ Py.str (Z.pos p)) = 0 \/ c = ":"%char.
Proof.
  intros Hc. cbn [String.append Py.count].
  rewrite (all_chars_count Py.is_digit c _ (str_pos_digits p) Hc).
  destruct (Ascii.eqb_spec ":" c); [right; congruence | left; reflexivity].
Qed.

(** How [str] writes a power of ten. *)
Lemma str_pow10 (k : nat) :
  Py.str (10 ^ Z.of_nat k) = "1" ++ Py.repeat_nat "0" k.
Proof.
  set (d := Decimal.app (D1 Nil) (Nat.iter k D0 Nil)).
  assert (Hval : Z.of_uint d = 10 ^ Z.of_nat k).
  { unfold d. rewrite of_uint_iter_D0. change (Z.of_uint (D1 Nil)) with 1.
    induction k as [|k IH]; [reflexivity|].
    rewrite Nat2Z.inj_succ, Z.pow_succ_r by lia.
    rewrite DecimalPos.Unsigned.nat_iter_S, IH. reflexivity. }
  assert (Hd : d = D1 (Nat.iter k D0 Nil)) by reflexivity.
  assert (Hpos : 0 < 10 ^ Z.of_nat k) by (apply Z.pow_pos_nonneg; lia).
  unfold Z.of_uint in Hval.
  destruct (Pos.of_uint d) as [|P] eqn:EP; cbn [Z.of_N] in Hval; [lia|].
  rewrite <- Hval. unfold Py.str. cbn [Z.to_int NilEmpty.string_of_int].
  pose proof (DecimalPos.Unsigned.to_of d) as Hto. rewrite EP in Hto.
  cbn [N.to_uint] in Hto. rewrite Hto, Hd.
  cbn [unorm nzhead NilEmpty.string_of_uint String.append]. f_equal.
  clear. induction k as [|k IH]; [reflexivity|].
  rewrite DecimalPos.Unsigned.nat_iter_S.
  cbn [NilEmpty.string_of_uint Py.repeat_nat String.append].
  rewrite IH. reflexivity.
Qed.

(** C10, as stated, fails: [int] reads no more than 4300 digits, and the
    bare [except] of [parse_spec] turns its [ValueError] into a
    [ProtocolException].  The positive integer [10^4300] is written as a 1
    and 4300 zeros, and the spec [":n"] for it is refused. *)
Lemma long_length_refused :
  0 < 10 ^ 4300
  /\ Py.str (10 ^ 4300) = "1" ++ Py.mul "0" 4300
  /\ __init__ (":" ++ Py.str (10 ^ 4300))
     = Raise (invalid_fields (":" ++ Py.str (10 ^ 4300))).
Proof.
  assert (Hstr : Py.str (10 ^ 4300) = "1" ++ Py.mul "0" 4300)
    by exact (str_pow10 4300).
  split; [apply Z.pow_pos_nonneg; lia|]. split; [exact Hstr|].
  rewrite Hstr. vm_compute. reflexivity.
Qed.

(** C10, amended.  An item with an empty name is accepted.  For every
    positive integer [n] written with at most 4300 digits, a spec whose
    field part holds the item [":n"] among items [pre] and [post] that are
    valid, and whose options, if it has any, are accepted, is parsed
    successfully, and the field at the place of [":n"] has the empty text
    and the length [n]; no exception is raised for the empty name. *)
Theorem empty_name_accepted (n : Z) (pre post : list string)
  (opts : option string) :
  0 < n ->
  Py.len (Py.str n) <= Py.max_str_digits ->
  Forall valid_item (pre ++ post) ->
  Forall (fun s => Py.count "," s = 0 /\ Py.count "?" s = 0) (pre ++ post) ->
  match opts with
  | Some o => Py.count "?" o = 0
              /\ exists q, for_each parse_opt (Py.split "," o) initial = Ok q
  | None => True
  end ->
  exists p,
    __init__ (Py.join "," (pre ++ [":" ++ Py.str n] ++ post)
                ++ match opts with Some o => "?" ++ o | None => "" end)
    = Ok p
    /\ nth_error (field_list p) (List.length pre) = Some (mkField "" n None)
    /\ List.length (field_list p)
       = (List.length pre + 1 + List.length post)%nat.
Proof.
  intros Hn Hdigits Hv Hs Ho.
  destruct n as [|p|p]; try lia. clear Hn.
  set (item := ":" ++ Py.str (Z.pos p)).
  set (items := (pre ++ [item] ++ post)%list).
  assert (Hitem : field_of_item item = Some (mkField "" (Z.pos p) None))
    by (apply field_of_unnamed_item; exact Hdigits).
  apply Forall_app in Hv as [Hv1 Hv2]. apply Forall_app in Hs as [Hs1 Hs2].
  assert (Hvalid : Forall valid_item items).
  { apply Forall_app; split; [exact Hv1|].
    constructor; [unfold valid_item; congruence | exact Hv2]. }
  assert (Hsep : forall c, (c = "," \/ c = "?")%char ->
                           Forall (fun s => Py.count c s = 0) items).
  { intros c Hc. apply Forall_app; split; [|constructor].
    - eapply Forall_impl; [|exact Hs1]. intros s [? ?].
      destruct Hc; subst; assumption.
    - destruct (count_digits_sep c p) as [H| ->]; [| exact H |].
      + destruct Hc; subst; reflexivity.
      + destruct Hc; discriminate.
    - eapply Forall_impl; [|exact Hs2]. intros s [? ?].
      destruct Hc; subst; assumption. }
  assert (Hne : items <> []) by (unfold items; destruct pre; discriminate).
  assert (Hfields : fields_of_items items
                    = (fields_of_items pre
                         ++ mkField "" (Z.pos p) None :: fields_of_items post)%list).
  { unfold items. rewrite !fields_of_items_app.
    unfold fields_of_items at 2. cbn [flat_map]. rewrite Hitem. reflexivity. }
  assert (Hnth : nth_error (fields_of_items items) (List.length pre)
                 = Some (mkField "" (Z.pos p) None)).
  { rewrite Hfields, nth_error_app2
      by (rewrite fields_of_valid_items by exact Hv1; lia).
    rewrite fields_of_valid_items by exact Hv1.
    rewrite Nat.sub_diag. reflexivity. }
  assert (Hlen : List.length (fields_of_items items)
                 = (List.length pre + 1 + List.length post)%nat).
  { rewrite fields_of_valid_items by exact Hvalid. unfold items.
    rewrite !length_app. cbn [List.length]. lia. }
  assert (Hq0 : Py.count "?" (Py.join "," items) = 0)
    by (apply join_count; [apply Hsep; auto | discriminate]).
  unfold __init__, parse_spec. fold items.
  destruct opts as [o|].
  - destruct Ho as [Hoq [q Hq]].
    assert (Hc : Py.count "?" (Py.join "," items ++ "?" ++ o) = 1).
    { rewrite count_app, Hq0. cbn [String.append Py.count Ascii.eqb Bool.eqb].
      rewrite Hoq. reflexivity. }
    unfold Py.contains. rewrite Hc.
    change ("?" ++ o) with (String "?" o).
    rewrite split_app by exact Hq0. rewrite split_none by exact Hoq.
    cbn [Z.ltb Z.compare Pos.compare Pos.compare_cont bind fst snd].
    rewrite split_join by (auto using Hsep).
    rewrite (parse_items_valid _ _ Hvalid). cbn [bind field_list initial].
    destruct (parse_opts_frame _ _ _
                (set_field_list initial ([] ++ fields_of_items items)%list) Hq)
      as [_ [p' Hp']].
    exists p'. split; [exact Hp'|].
    destruct (parse_opts_frame _ _ _ initial Hp') as [Hf _].
    rewrite Hf. cbn [field_list set_field_list List.app]. auto.
  - rewrite app_empty_r.
    rewrite (proj2 (contains_count "?" _) Hq0). cbn [bind fst snd].
    rewrite split_join by (auto using Hsep).
    rewrite (parse_items_valid _ _ Hvalid).
    eexists. split; [reflexivity|].
    cbn [field_list set_field_list initial List.app]. auto.
Qed.

Lemma empty_name_accepted_witness :
  exists p,
    __init__ ":8" = Ok p
    /\ nth_error (field_list p) 0 = Some (mkField "" 8 None)
    /\ List.length (field_list p) = 1%nat.
Proof.
  refine (empty_name_accepted 8 [] [] None _ _ _ _ _).
  - lia.
  - vm_compute. discriminate.
  - constructor.
  - constructor.
  - exact I.
Defined.

(** *** C7: the [numbers] option *)

(** No letter turns into a separator character when lowered. *)
Lemma lower_char_sep (c d : ascii) :
  (c = "=" \/ c = "," \/ c = "?")%char -> Py.lower_char d = c -> d = c.
Proof.
  intros Hc H.
  destruct d as [[] [] [] [] [] [] [] []];
    destruct Hc as [-> | [-> | ->]]; (reflexivity || discriminate H).
Qed.

Lemma lower_count (c : ascii) (s : string) :
  (c = "=" \/ c = "," \/ c = "?")%char ->
  Py.count c (Py.lower s) = 0 -> Py.count c s = 0.
Proof.
  intros Hc. induction s as [|d r IH]; [reflexivity|].
  cbn [Py.lower Py.count]. intros H.
  pose proof (count_nonneg c (Py.lower r)).
  destruct (Ascii.eqb_spec (Py.lower_char d) c) as [E|E]; [lia|].
  destruct (Ascii.eqb_spec d c) as [->|_].
  - exfalso. apply E.
    destruct Hc as [-> | [-> | ->]]; reflexivity.
  - apply IH. lia.
Qed.

Lemma for_each_app {A S : Type} (body : S -> A -> result S)
  (l1 l2 : list A) (s : S) :
  for_each body (l1 ++ l2) s
  = (s1 <- for_each body l1 s ;; for_each body l2 s1).
Proof.
  revert s. induction l1 as [|a l1 IH]; intros s; cbn [List.app for_each bind].
  - reflexivity.
  - destruct (body s a); cbn [bind]; [apply IH | reflexivity].
Qed.

Lemma for_each_inv_on {A S : Type} (body : S -> A -> result S)
  (Q : A -> Prop) (P : S -> Prop) :
  (forall s a s', Q a -> P s -> body s a = Ok s' -> P s') ->
  forall l s s', Forall Q l -> P s -> for_each body l s = Ok s' -> P s'.
Proof.
  intros Hb. induction l as [|a r IH]; intros s s' Hl Hs; cbn [for_each].
  - intros [= <-]. exact Hs.
  - inversion Hl as [|? ? Ha Hr]; subst.
    destruct (body s a) as [s1|] eqn:E; cbn [bind]; [|discriminate].
    apply IH; [exact Hr|]. exact (Hb _ _ _ Ha Hs E).
Qed.

(** A spec with one ['?']: the fields are parsed, then the options. *)
Lemma init_with_options (fields opts : string) :
  Py.count "?" fields = 0 -> Py.count "?" opts = 0 ->
  __init__ (fields ++ "?" ++ opts)
  = (self <- for_each (parse_item (fields ++ "?" ++ opts))
               (Py.split "," fields) initial ;;
     for_each parse_opt (Py.split "," opts) self).
Proof.
  intros Hf Ho. unfold __init__, parse_spec, Py.contains.
  change ("?" ++ opts) with (String "?" opts).
  assert (Hc : Py.count "?" (fields ++ String "?" opts) = 1).
  { rewrite count_app, Hf. cbn [Py.count Ascii.eqb Bool.eqb].
    rewrite Ho. reflexivity. }
  rewrite Hc, split_app by exact Hf. rewrite split_none by exact Ho.
  reflexivity.
Qed.

Lemma parse_opt_other (s : Protocol) (o : string) (s' : Protocol) :
  other_option o ->
  parse_opt s o = Ok s' ->
  do_print_top_tens s' = do_print_top_tens s
  /\ do_print_top_units s' = do_print_top_units s.
Proof.
  unfold other_option, parse_opt.
  destruct (Py.split "=" o) as [|var [|value [|? ?]]]; try discriminate.
  intros Hvar.
  destruct (String.eqb_spec (Py.lower var) "numbers") as [E|_];
    [contradiction|].
  repeat match goal with
         | |- context [match ?x with _ => _ end] => destruct x
         end; intros [= <-]; split; reflexivity.
Qed.

(** C7.  An option [numbers=v] (the key in any letter case) switches both
    ruler rows off when [v] is, in any letter case, one of [0 n no none
    false], switches both on when it is one of [1 y yes true], and raises a
    [ProtocolException] for any other value; [none] is falsy.  This is so
    for the option wherever it stands (first part), for the spec
    [fields?numbers=v] as a whole (second part), and for every spec that has
    the option among its options (third part): with a value of neither list
    the spec is rejected, and otherwise a successful parse leaves both
    switches as the value says, unless a later [numbers] option sets them
    again. *)
Theorem numbers_option (var v : string) :
  Py.lower var = "numbers" ->
  Py.count "=" v = 0 ->
  (forall self,
      parse_opt self (var ++ "=" ++ v)
      = match numbers_setting v with
        | Some b => Ok (set_print_top self b b)
        | None =>
            Raise (ProtocolException
                     ("FATAL: Invalid value for 'numbers' option ("
                        ++ v ++ ")"))
        end)
  /\ (forall fields,
         Py.count "?" fields = 0 -> Py.count "?" v = 0 ->
         Py.count "," v = 0 ->
         __init__ (fields ++ "?" ++ var ++ "=" ++ v)
         = (self <- for_each (parse_item (fields ++ "?" ++ var ++ "=" ++ v))
                      (Py.split "," fields) initial ;;
            match numbers_setting v with
            | Some b => Ok (set_print_top self b b)
            | None =>
                Raise (ProtocolException
                         ("FATAL: Invalid value for 'numbers' option ("
                            ++ v ++ ")"))
            end))
  /\ (forall fields pre post,
         Py.count "?" fields = 0 -> Py.count "?" v = 0 ->
         Py.count "," v = 0 ->
         Forall (fun o => Py.count "?" o = 0 /\ Py.count "," o = 0)
           (pre ++ post) ->
         match numbers_setting v with
         | Some b =>
             forall p,
               __init__ (fields ++ "?"
                           ++ Py.join "," (pre ++ [var ++ "=" ++ v] ++ post))
               = Ok p ->
               Forall other_option post ->
               do_print_top_tens p = b /\ do_print_top_units p = b
         | None =>
             is_protocol_exception
               (__init__ (fields ++ "?"
                            ++ Py.join "," (pre ++ [var ++ "=" ++ v] ++ post)))
         end).
Proof.
  intros Hvar Hv.
  assert (Hsep : forall c, (c = "=" \/ c = "," \/ c = "?")%char ->
                           Py.count c var = 0).
  { intros c Hc. apply lower_count; [exact Hc|]. rewrite Hvar.
    destruct Hc as [-> | [-> | ->]]; reflexivity. }
  assert (Hopt : forall self,
             parse_opt self (var ++ "=" ++ v)
             = match numbers_setting v with
               | Some b => Ok (set_print_top self b b)
               | None =>
                   Raise (ProtocolException
                            ("FATAL: Invalid value for 'numbers' option ("
                               ++ v ++ ")"))
               end).
  { intros self. unfold parse_opt.
    change ("=" ++ v) with (String "=" v).
    rewrite split_app by auto. rewrite split_none by exact Hv.
    rewrite Hvar. cbn [String.eqb Ascii.eqb Bool.eqb andb].
    unfold numbers_setting.
    destruct (mem (Py.lower v) ["0"; "n"; "no"; "none"; "false"]) eqn:E1;
      [reflexivity|].
    assert (E : mem (Py.lower v) ["1"; "y"; "yes"; "none"; "true"]
                = mem (Py.lower v) ["1"; "y"; "yes"; "true"]).
    { cbn [mem existsb] in *.
      destruct (String.eqb (Py.lower v) "none");
        [rewrite !orb_true_r in E1; discriminate|].
      reflexivity. }
    rewrite E.
    destruct (mem (Py.lower v) ["1"; "y"; "yes"; "true"]); reflexivity. }
  set (opt := var ++ "=" ++ v) in *.
  assert (Hsepo : forall c, (c = "," \/ c = "?")%char ->
                            Py.count c v = 0 -> Py.count c opt = 0).
  { intros c Hc Hcv. unfold opt. rewrite !count_app, Hcv.
    rewrite Hsep by tauto. cbn [Py.count].
    destruct Hc as [-> | ->]; reflexivity. }
  split; [exact Hopt|]. split.
  - intros fields Hf Hvq Hvc.
    rewrite init_with_options by auto.
    destruct (for_each _ (Py.split "," fields) initial) as [self|e];
      cbn [bind]; [|reflexivity].
    rewrite split_none by auto. cbn [for_each].
    rewrite Hopt. destruct (numbers_setting v); reflexivity.
  - intros fields pre post Hf Hvq Hvc Hitems.
    set (opts := (pre ++ [opt] ++ post)%list).
    apply Forall_app in Hitems as [Hpre Hpost].
    assert (Hall : forall c, (c = "," \/ c = "?")%char ->
                             Forall (fun o => Py.count c o = 0) opts).
    { intros c Hc. apply Forall_app. split; [|constructor].
      - eapply Forall_impl; [|exact Hpre]. intros o [? ?].
        destruct Hc; subst; assumption.
      - apply Hsepo; [exact Hc|]. destruct Hc; subst; assumption.
      - eapply Forall_impl; [|exact Hpost]. intros o [? ?].
        destruct Hc; subst; assumption. }
    assert (Hne : opts <> []) by (unfold opts; destruct pre; discriminate).
    assert (Hinit :
              __init__ (fields ++ "?" ++ Py.join "," opts)
              = (s0 <- for_each
                         (parse_item (fields ++ "?" ++ Py.join "," opts))
                         (Py.split "," fields) initial ;;
                 s1 <- for_each parse_opt pre s0 ;;
                 s2 <- parse_opt s1 opt ;;
                 for_each parse_opt post s2)).
    { assert (Hoq : Py.count "?" (Py.join "," opts) = 0)
        by (apply join_count; [apply Hall; auto | discriminate]).
      rewrite init_with_options by assumption.
      rewrite split_join by auto.
      destruct (for_each _ (Py.split "," fields) initial) as [s0|];
        cbn [bind]; [|reflexivity].
      unfold opts. rewrite for_each_app.
      destruct (for_each parse_opt pre s0) as [s1|]; cbn [bind];
        reflexivity. }
    destruct (numbers_setting v) as [b|] eqn:Ev.
    + intros p Hp Hother. rewrite Hinit in Hp.
      destruct (for_each _ (Py.split "," fields) initial) as [s0|];
        cbn [bind] in Hp; [|discriminate].
      destruct (for_each parse_opt pre s0) as [s1|]; cbn [bind] in Hp;
        [|discriminate].
      rewrite Hopt in Hp. cbn [bind] in Hp.
      revert Hp.
      apply (for_each_inv_on parse_opt other_option
               (fun s => do_print_top_tens s = b
                         /\ do_print_top_units s = b));
        [|exact Hother|split; reflexivity].
      intros s o s' Ho [Ht Hu] Hs.
      destruct (parse_opt_other s o s' Ho Hs) as [-> ->]. auto.
    + unfold is_protocol_exception. rewrite Hinit.
      destruct (for_each _ (Py.split "," fields) initial) as [s0|e] eqn:E0;
        cbn [bind].
      * destruct (for_each parse_opt pre s0) as [s1|e] eqn:E1; cbn [bind].
        -- rewrite Hopt. cbn [bind]. eauto.
        -- destruct (for_each_raises parse_opt
                       (fun e => exists msg, e = ProtocolException msg)
                       parse_opt_raises _ _ _ E1) as [msg ->].
           eauto.
      * destruct (for_each_raises _
                    (fun e => exists msg, e = ProtocolException msg)
                    (parse_item_raises _) _ _ _ E0) as [msg ->].
        eauto.
Qed.

Lemma numbers_option_witness :
  (forall self,
      parse_opt self "Numbers=NONE" = Ok (set_print_top self false false))
  /\ __init__ "A:8?Numbers=NONE"
     = Ok (mkProtocol "+" "+" "+" "-" "|" 32 1 false false true
             [mkField "A" 8 None])
  /\ forall p,
      __init__ "A:8?bits=16,Numbers=NONE,sepchar=!" = Ok p ->
      Forall other_option ["sepchar=!"] ->
      do_print_top_tens p = false /\ do_print_top_units p = false.
Proof.
  pose proof (numbers_option "Numbers" "NONE" eq_refl eq_refl) as [H1 [H2 H3]].
  split; [exact H1|]. split.
  - exact (H2 "A:8" eq_refl eq_refl eq_refl).
  - refine (H3 "A:8" ["bits=16"] ["sepchar=!"] eq_refl eq_refl eq_refl _).
    repeat constructor.
Defined.

(* ================================================================= *)
(** ** The line allocator *)

Lemma update_middle {A : Type} (a b : list A) (x v : A) :
  update (a ++ x :: b) (List.length a) v = (a ++ v :: b)%list.
Proof. induction a as [|y a IH]; cbn; [|rewrite IH]; reflexivity. Qed.

Lemma nth_error_middle {A : Type} (a b : list A) :
  nth_error (a ++ b) (List.length a) = hd_error b.
Proof.
  induction a as [|y a IH]; [destruct b; reflexivity | exact IH].
Qed.

Lemma app_cons_assoc {A : Type} (a b : list A) (x : A) :
  (a ++ x :: b = (a ++ [x]) ++ b)%list.
Proof. rewrite <- app_assoc. reflexivity. Qed.

Lemma length_snoc {A : Type} (a : list A) (x : A) :
  List.length (a ++ [x]) = S (List.length a).
Proof. rewrite length_app. cbn. lia. Qed.

Lemma alloc_body_cases (bpl : Z) (nf : list field) (b : Z)
  (done : list field) (f : field) (rest : list field) :
  alloc_body bpl (at_field nf b done (f :: rest)) f
  = if len f <=? bpl - b then
      at_field (nf ++ [seen f]) (if b + len f =? bpl then 0 else b + len f)
        (done ++ [seen f]) rest
    else if (b =? 0) && (len f mod bpl =? 0) then
      at_field (nf ++ [seen f]) 0 (done ++ [seen f]) rest
    else
      at_field (nf ++ [piece bpl b f]) 0 done (remainder bpl b f :: rest).
Proof.
  unfold alloc_body, at_field, appended, seen, piece, remainder.
  cbn [new_fields bits_in_line idx fields_now].
  rewrite !update_middle, !length_snoc, <- !app_cons_assoc.
  destruct (len f <=? bpl - b); [reflexivity|].
  destruct ((b =? 0) && (len f mod bpl =? 0)); [reflexivity|].
  destruct (len f - (bpl - b) <=? bpl - b); reflexivity.
Qed.

Lemma alloc_loop_at (bpl : Z) (fuel : nat) (nf : list field) (b : Z)
  (done rest : list field) :
  alloc_loop bpl fuel (at_field nf b done rest)
  = match rest with
    | [] => Some (nf, done)
    | f :: rest' =>
        match fuel with
        | O => None
        | S fuel' =>
            alloc_loop bpl fuel' (alloc_body bpl (at_field nf b done rest) f)
        end
    end.
Proof.
  destruct fuel; cbn [alloc_loop]; unfold at_field;
    cbn [fields_now idx new_fields]; rewrite nth_error_middle;
    destruct rest; cbn [hd_error]; rewrite ?app_nil_r; reflexivity.
Qed.

(** What the loop returns is what the rules of [Alloc] say. *)
Lemma alloc_loop_sound (bpl : Z) (fuel : nat) :
  forall nf b done rest r,
    alloc_loop bpl fuel (at_field nf b done rest) = Some r ->
    exists frags rest',
      Alloc bpl b rest frags rest'
      /\ r = ((nf ++ frags)%list, (done ++ rest')%list).
Proof.
  induction fuel as [|fuel IH]; intros nf b done rest r;
    rewrite alloc_loop_at;
    (destruct rest as [|f rest];
     [intros [= <-]; exists [], []; rewrite !app_nil_r;
      split; [constructor | reflexivity] | ]);
    [discriminate|].
  rewrite alloc_body_cases.
  destruct (len f <=? bpl - b) eqn:E1;
    [|destruct ((b =? 0) && (len f mod bpl =? 0)) eqn:E2];
    intros H; apply IH in H as (frags & rest' & HA & ->).
  - exists (seen f :: frags), (seen f :: rest').
    rewrite <- !app_cons_assoc. split; [|reflexivity].
    apply Alloc_fit; assumption.
  - exists (seen f :: frags), (seen f :: rest').
    rewrite <- !app_cons_assoc. split; [|reflexivity].
    apply Alloc_block; assumption.
  - exists (piece bpl b f :: frags), rest'.
    rewrite <- !app_cons_assoc. split; [|reflexivity].
    apply Alloc_split; assumption.
Qed.

(** The loop ends: with a positive line width and fewer bits in the line
    than that, [alloc_fuel] rounds are enough. *)
Lemma alloc_loop_total (bpl : Z) (fuel : nat) :
  0 < bpl ->
  forall nf b done rest,
    b < bpl ->
    (alloc_fuel rest <= fuel)%nat ->
    exists r, alloc_loop bpl fuel (at_field nf b done rest) = Some r.
Proof.
  intros Hbpl. induction fuel as [|fuel IH]; intros nf b done rest Hb Hfuel;
    rewrite alloc_loop_at;
    (destruct rest as [|f rest]; [eauto|]);
    cbn [alloc_fuel fold_right] in Hfuel; [lia|].
  fold (alloc_fuel rest) in Hfuel.
  rewrite alloc_body_cases.
  destruct (Z.leb_spec (len f) (bpl - b));
    [|destruct ((b =? 0) && (len f mod bpl =? 0))].
  - apply IH; [destruct (Z.eqb_spec (b + len f) bpl); lia | lia].
  - apply IH; lia.
  - apply IH; [lia|].
    cbn [alloc_fuel fold_right remainder len]. fold (alloc_fuel rest). lia.
Qed.

(** [_process_field_list] returns, and what it returns follows the rules. *)
Lemma process_from_spec (bpl : Z) (l : list field) :
  0 < bpl ->
  exists frags l',
    process_from bpl l = Some (frags, l') /\ Alloc bpl 0 l frags l'.
Proof.
  intros Hbpl. unfold process_from.
  destruct (alloc_loop_total bpl (alloc_fuel l) Hbpl [] 0 [] l) as [r Hr];
    [lia | lia |].
  change (mkAlloc [] 0 0 l) with (at_field [] 0 [] l). rewrite Hr.
  apply alloc_loop_sound in Hr as (frags & l' & HA & ->).
  exists frags, l'. split; [reflexivity | exact HA].
Qed.

(** *** What [parse_spec] guarantees *)

Lemma for_each_inv {A S : Type} (body : S -> A -> result S) (P : S -> Prop) :
  (forall s a s', P s -> body s a = Ok s' -> P s') ->
  forall l s s', P s -> for_each body l s = Ok s' -> P s'.
Proof.
  intros Hb. induction l as [|a r IH]; intros s s' Hs; cbn [for_each].
  - intros [= <-]. exact Hs.
  - destruct (body s a) as [s1|] eqn:E; cbn [bind]; [|discriminate].
    apply IH. exact (Hb _ _ _ Hs E).
Qed.

Lemma parse_item_parsed (spec : string) (s : Protocol) (item : string)
  (s' : Protocol) :
  parsed s -> parse_item spec s item = Ok s' -> parsed s'.
Proof.
  intros [H1 H2 H3 H4 ? ? ? ? ?]. unfold parse_item.
  destruct (Py.split ":" item) as [|t [|b [|? ?]]]; try discriminate.
  destruct (Py.int b) as [n|]; [|discriminate].
  destruct (Z.leb_spec n 0); [discriminate|].
  intros [= <-]. constructor; cbn; try assumption.
  apply Forall_app. split; [exact H4|]. constructor; [assumption|constructor].
Qed.

Lemma parse_opt_parsed (s : Protocol) (opt : string) (s' : Protocol) :
  parsed s -> parse_opt s opt = Ok s' -> parsed s'.
Proof.
  intros [H1 H2 H3 H4 ? ? ? ? ?]. unfold parse_opt.
  destruct (Py.split "=" opt) as [|var [|value [|? ?]]]; try discriminate.
  destruct (String.eqb (Py.lower var) "bits").
  { destruct (Py.int value) as [n|]; [|discriminate].
    destruct (Z.leb_spec n 0); [discriminate|].
    intros [= <-]. constructor; cbn; assumption. }
  destruct (String.eqb (Py.lower var) "numbers").
  { repeat match goal with
           | |- context [if ?x then _ else _] => destruct x
           end; intros [= <-]; constructor; cbn; assumption. }
  destruct (mem (Py.lower var) _); [|intros [= <-]; constructor; assumption].
  destruct (Z.ltb_spec 1 (Py.len value)); [discriminate|].
  destruct (Z.leb_spec (Py.len value) 0); [discriminate|].
  cbn [orb].
  repeat match goal with
         | |- context [if ?x then _ else _] => destruct x
         end; intros [= <-]; constructor; cbn; (assumption || lia).
Qed.

Lemma initial_parsed : parsed initial.
Proof. constructor; cbn; (lia || reflexivity || constructor). Qed.

Lemma init_parsed (spec : string) (p : Protocol) :
  __init__ spec = Ok p -> parsed p.
Proof.
  unfold __init__, parse_spec.
  destruct (if Py.contains "?" spec then _ else _) as [[fields opts]|];
    cbn [bind fst snd]; [|discriminate].
  destruct (for_each (parse_item spec) (Py.split "," fields) initial)
    as [s|] eqn:E; cbn [bind]; [|discriminate].
  assert (Hs : parsed s).
  { revert E. apply for_each_inv; [|exact initial_parsed].
    intros ? ? ?. apply parse_item_parsed. }
  destruct opts as [o|]; [|intros [= <-]; exact Hs].
  apply for_each_inv; [|exact Hs]. intros ? ? ?. apply parse_opt_parsed.
Qed.

(** [_process_field_list] on an object, through the rules of [Alloc]. *)
Lemma process_spec (p : Protocol) :
  0 < bits_per_line p ->
  exists frags l',
    _process_field_list p = Some (frags, set_field_list p l')
    /\ Alloc (bits_per_line p) 0 (field_list p) frags l'.
Proof.
  intros H. unfold _process_field_list.
  destruct (process_from_spec _ (field_list p) H) as (frags & l' & -> & HA).
  eauto.
Qed.

(** *** C4: the fragments are the fields, cut up in order *)

Lemma sum_len_app (a b : list field) :
  sum_len (a ++ b) = sum_len a + sum_len b.
Proof.
  unfold sum_len. induction a as [|f a IH]; cbn [List.app fold_right]; lia.
Qed.

Lemma Alloc_groups (bpl b : Z) (l frags l' : list field) :
  Alloc bpl b l frags l' ->
  exists groups, List.concat groups = frags /\ Forall2 reassembles groups l.
Proof.
  induction 1 as [b | b f r frags r' Hfit _ IH | b f r frags r' Hfit Hblk _ IH
                 | b f r frags r' Hfit Hblk _ IH].
  - exists []. split; constructor.
  - destruct IH as (gs & <- & HF). exists ([seen f] :: gs).
    split; [reflexivity|]. constructor; [|exact HF].
    repeat split; cbn; (discriminate || lia || reflexivity).
  - destruct IH as (gs & <- & HF). exists ([seen f] :: gs).
    split; [reflexivity|]. constructor; [|exact HF].
    repeat split; cbn; (discriminate || lia || reflexivity).
  - destruct IH as (gs & <- & HF).
    inversion HF as [|g0 f0 gs' r0 (Hne & Hsum & Htxt) HF']; subst.
    exists ((piece bpl b f :: g0) :: gs'). split; [reflexivity|].
    constructor; [|exact HF']. repeat split.
    + discriminate.
    + cbn [sum_len fold_right piece len] in *. fold (sum_len g0).
      cbn [remainder len] in Hsum. lia.
    + cbn [map String.concat piece text].
      destruct (map text g0) as [|t ts] eqn:E;
        [destruct g0; [congruence|discriminate]|].
      rewrite Htxt. cbn [remainder text String.append].
      destruct (len f - (bpl - b) <=? bpl - b);
        [apply app_empty_r | reflexivity].
Qed.

Lemma groups_sum (groups : list (list field)) (fs : list field) :
  Forall2 reassembles groups fs -> sum_len (List.concat groups) = sum_len fs.
Proof.
  induction 1 as [|g f gs fs' (_ & Hs & _) _ IH]; [reflexivity|].
  cbn [List.concat]. rewrite sum_len_app, IH, Hs. reflexivity.
Qed.

(** C4.  For every valid spec the line allocation returns fragments whose
    widths add up to the bit lengths of the parsed fields, and the fragments
    are the fields cut up in order: they fall into consecutive groups, one
    group for each field in the order of the fields, and the fragments of a
    group have the bits of their field and, end to end, its text. *)
Theorem fragments_reassemble (spec : string) (p : Protocol) :
  __init__ spec = Ok p ->
  exists frags p',
    _process_field_list p = Some (frags, p')
    /\ sum_len frags = sum_len (field_list p)
    /\ exists groups,
        List.concat groups = frags /\ Forall2 reassembles groups (field_list p).
Proof.
  intros Hp. destruct (init_parsed spec p Hp) as [Hb _ _ _ _ _ _ _ _].
  destruct (process_spec p Hb) as (frags & l' & Hrun & HA).
  destruct (Alloc_groups _ _ _ _ _ HA) as (gs & Hc & HF).
  exists frags, (set_field_list p l'). split; [exact Hrun|]. split.
  - rewrite <- Hc. exact (groups_sum gs _ HF).
  - exists gs. split; assumption.
Qed.

Lemma fragments_reassemble_witness :
  exists frags p',
    _process_field_list
      (mkProtocol "+" "+" "+" "-" "|" 8 1 true true true
         [mkField "A" 12 None; mkField "B" 6 None])
    = Some (frags, p')
    /\ sum_len frags = 18
    /\ exists groups,
        List.concat groups = frags
        /\ Forall2 reassembles groups [mkField "A" 12 None; mkField "B" 6 None].
Proof.
  exact (fragments_reassemble "A:12,B:6?bits=8" _ eq_refl).
Defined.

(** *** C2: the width of a fragment *)

Lemma mod_shift (m a a' s : Z) :
  0 < m -> (a - a') mod m = 0 -> (a + s) mod m = (a' + s) mod m.
Proof.
  intros Hm H. apply Z.mod_divide in H; [|lia]. destruct H as [k Hk].
  replace (a + s) with (a' + s + k * m) by lia.
  apply Z_mod_plus_full.
Qed.

(** Where a fragment stands in its line, and that it is in one piece
    there, or the filling half of a split. *)
Lemma Alloc_fits (bpl b : Z) (l frags l' : list field) :
  Alloc bpl b l frags l' ->
  0 < bpl -> 0 <= b < bpl -> positive_fields l ->
  forall a f c,
    frags = (a ++ f :: c)%list ->
    0 < len f /\ in_one_piece bpl (b + sum_len a) (len f).
Proof.
  unfold in_one_piece.
  induction 1 as [b | b f r frags r' Hfit _ IH | b f r frags r' Hfit Hblk _ IH
                 | b f r frags r' Hfit Hblk _ IH];
    intros Hbpl Hb Hpos a x c E.
  - destruct a; discriminate.
  - inversion Hpos as [|? ? Hf Hr]; subst. apply Z.leb_le in Hfit.
    destruct a as [|y a]; injection E as <- ->.
    + cbn [sum_len fold_right seen len]. rewrite Z.add_0_r, Z.mod_small by lia.
      split; [exact Hf | left; exact Hfit].
    + cbn [sum_len fold_right seen len]. fold (sum_len a).
      set (b' := if b + len f =? bpl then 0 else b + len f) in *.
      assert (Hb' : 0 <= b' < bpl)
        by (unfold b'; destruct (Z.eqb_spec (b + len f) bpl); lia).
      assert (Hm : (b + (len f + sum_len a) - (b' + sum_len a)) mod bpl = 0).
      { unfold b'. destruct (Z.eqb_spec (b + len f) bpl).
        - replace (b + (len f + sum_len a) - (0 + sum_len a)) with (1 * bpl)
            by lia.
          apply Z_mod_mult.
        - replace (b + (len f + sum_len a) - (b + len f + sum_len a)) with 0
            by lia.
          apply Zmod_0_l. }
      pose proof (mod_shift bpl _ (b' + sum_len a) 0 Hbpl Hm) as Heq.
      rewrite !Z.add_0_r in Heq. rewrite Heq.
      apply (IH Hbpl Hb' Hr a x c eq_refl).
  - inversion Hpos as [|? ? Hf Hr]; subst.
    apply andb_true_iff in Hblk as [Hb0 Hm].
    apply Z.eqb_eq in Hb0, Hm. subst b.
    destruct a as [|y a]; injection E as <- ->.
    + cbn [sum_len fold_right seen len]. rewrite Zmod_0_l.
      split; [exact Hf | right; split; [reflexivity | exact Hm]].
    + cbn [sum_len fold_right seen len]. fold (sum_len a).
      replace (0 + (len f + sum_len a)) with (len f + sum_len a) by lia.
      rewrite (mod_shift bpl (len f) 0 (sum_len a) Hbpl)
        by (rewrite Z.sub_0_r; exact Hm).
      apply (IH Hbpl Hb Hr a x c eq_refl).
  - inversion Hpos as [|? ? Hf Hr]; subst. apply Z.leb_gt in Hfit.
    destruct a as [|y a]; injection E as <- ->.
    + cbn [sum_len fold_right piece len]. rewrite Z.add_0_r, Z.mod_small by lia.
      split; [lia | left; lia].
    + cbn [sum_len fold_right piece len]. fold (sum_len a).
      replace (b + (bpl - b + sum_len a)) with (1 * bpl + sum_len a) by lia.
      rewrite (mod_shift bpl (1 * bpl) 0 (sum_len a) Hbpl)
        by (rewrite Z.sub_0_r; apply Z_mod_mult).
      apply (IH Hbpl ltac:(lia)) with (c := c); [|reflexivity].
      constructor; [cbn [remainder len]; lia | exact Hr].
Qed.

(** C2, as stated, fails: the 64-bit field of ["A:64"], at 32 bits per
    line, is emitted as one fragment of 64 bits. *)
Lemma full_width_fragment_exceeds_line :
  exists p frags p',
    __init__ "A:64" = Ok p
    /\ _process_field_list p = Some (frags, p')
    /\ ~ Forall (fun f => len f <= bits_per_line p) frags.
Proof.
  eexists _, _, _. split; [reflexivity|]. split; [reflexivity|].
  intros H. inversion H as [|? ? Hle _]; subst. cbn in Hle. lia.
Qed.

(** C2, amended.  For every list of fields of positive length and every
    positive [bits_per_line], the line allocation returns fragments each of
    which is at most [bits_per_line] wide, unless it starts a line and its
    width is a multiple of [bits_per_line]: a field that starts a line and
    fills whole lines is emitted as one fragment. *)
Theorem fragment_width (bpl : Z) (l : list field) :
  0 < bpl ->
  positive_fields l ->
  exists frags l',
    process_from bpl l = Some (frags, l')
    /\ forall a f c,
        frags = (a ++ f :: c)%list ->
        len f <= bpl \/ (sum_len a mod bpl = 0 /\ len f mod bpl = 0).
Proof.
  intros Hbpl Hpos.
  destruct (process_from_spec bpl l Hbpl) as (frags & l' & Hrun & HA).
  exists frags, l'. split; [exact Hrun|]. intros a f c E.
  destruct (Alloc_fits _ _ _ _ _ HA Hbpl ltac:(lia) Hpos a f c E)
    as [_ [H|H]]; cbn [Z.add] in H.
  - left. pose proof (Z.mod_pos_bound (sum_len a) bpl Hbpl). lia.
  - right. exact H.
Qed.

Lemma fragment_width_witness :
  exists frags l',
    process_from 8 [mkField "A" 6 None; mkField "B" 20 None]
    = Some (frags, l')
    /\ forall a f c,
        frags = (a ++ f :: c)%list ->
        len f <= 8 \/ (sum_len a mod 8 = 0 /\ len f mod 8 = 0).
Proof.
  apply (fragment_width 8 [mkField "A" 6 None; mkField "B" 20 None]).
  - lia.
  - repeat constructor.
Defined.

(** *** C3: what the allocation does to the field list *)

Lemma in_one_piece_mod (bpl before before' n : Z) :
  before mod bpl = before' mod bpl ->
  in_one_piece bpl before n -> in_one_piece bpl before' n.
Proof. unfold in_one_piece. intros ->. exact (fun H => H). Qed.

Lemma Alloc_unsplit (bpl b : Z) (l frags l' : list field) :
  Alloc bpl b l frags l' ->
  0 < bpl -> 0 <= b < bpl -> positive_fields l ->
  List.length l' = List.length l
  /\ Forall (fun f => MF f = Some false) l'
  /\ forall j f,
      nth_error l j = Some f ->
      in_one_piece bpl (b + sum_len (firstn j l)) (len f) ->
      nth_error l' j = Some (seen f).
Proof.
  induction 1 as [b | b f r frags r' Hfit _ IH | b f r frags r' Hfit Hblk _ IH
                 | b f r frags r' Hfit Hblk _ IH];
    intros Hbpl Hb Hpos.
  - repeat split; [constructor|]. intros [|j] f; discriminate.
  - inversion Hpos as [|? ? Hf Hr]; subst. apply Z.leb_le in Hfit.
    set (b' := if b + len f =? bpl then 0 else b + len f) in *.
    assert (Hb' : 0 <= b' < bpl)
      by (unfold b'; destruct (Z.eqb_spec (b + len f) bpl); lia).
    destruct (IH Hbpl Hb' Hr) as (Hlen & HMF & Hkeep).
    split; [cbn [List.length]; congruence|].
    split; [constructor; [reflexivity | exact HMF]|].
    intros [|j] x; cbn [nth_error firstn]; [intros [= <-]; reflexivity|].
    intros Hx Hone. apply (Hkeep j x Hx).
    revert Hone. apply in_one_piece_mod.
    cbn [sum_len fold_right]. fold (sum_len (firstn j r)).
    replace (b + (len f + sum_len (firstn j r)))
      with (b + len f + sum_len (firstn j r)) by lia.
    apply mod_shift; [exact Hbpl|]. unfold b'.
    destruct (Z.eqb_spec (b + len f) bpl) as [->|].
    + rewrite Z.sub_0_r. apply Z_mod_same_full.
    + rewrite Z.sub_diag. apply Zmod_0_l.
  - inversion Hpos as [|? ? Hf Hr]; subst.
    apply andb_true_iff in Hblk as [Hb0 Hm]. apply Z.eqb_eq in Hb0, Hm.
    destruct (IH Hbpl ltac:(lia) Hr) as (Hlen & HMF & Hkeep).
    split; [cbn [List.length]; congruence|].
    split; [constructor; [reflexivity | exact HMF]|].
    intros [|j] x; cbn [nth_error firstn]; [intros [= <-]; reflexivity|].
    intros Hx Hone. apply (Hkeep j x Hx).
    revert Hone. apply in_one_piece_mod.
    cbn [sum_len fold_right]. fold (sum_len (firstn j r)).
    replace (b + (len f + sum_len (firstn j r)))
      with (b + len f + sum_len (firstn j r)) by lia.
    apply mod_shift; [exact Hbpl|]. subst b.
    rewrite Z.sub_0_r. exact Hm.
  - inversion Hpos as [|? ? Hf Hr]; subst. apply Z.leb_gt in Hfit.
    assert (Hrem : positive_fields (remainder bpl b f :: r))
      by (constructor; [cbn [remainder len]; lia | exact Hr]).
    destruct (IH Hbpl ltac:(lia) Hrem) as (Hlen & HMF & Hkeep).
    split; [exact Hlen|]. split; [exact HMF|].
    intros [|j] x; cbn [nth_error firstn].
    + intros [= <-]. cbn [sum_len fold_right]. unfold in_one_piece.
      rewrite Z.add_0_r, Z.mod_small by lia. intros [H|[H1 H2]]; [lia|].
      rewrite H1, H2, !Z.eqb_refl in Hblk. discriminate.
    + intros Hx Hone. apply (Hkeep (S j) x Hx).
      revert Hone. apply in_one_piece_mod.
      cbn [firstn sum_len fold_right remainder len].
      fold (sum_len (firstn j r)).
      replace (b + (len f + sum_len (firstn j r)))
        with (b + len f - bpl + sum_len (firstn j r) + 1 * bpl) by lia.
      rewrite Z_mod_plus_full. f_equal. lia.
Qed.

Lemma str_state (p : Protocol) (frags : list field) (p' : Protocol) :
  _process_field_list p = Some (frags, p') ->
  exists out, __str__ p = Some (out, p').
Proof. intros H. unfold __str__. rewrite H. eauto. Qed.

(** C3, as stated, fails: the allocation for ["A:40"] leaves the one field
    of the list with the empty text and 8 bits. *)
Lemma allocation_mutates_split_field :
  exists p frags p',
    __init__ "A:40" = Ok p
    /\ _process_field_list p = Some (frags, p')
    /\ field_list p = [mkField "A" 40 None]
    /\ field_list p' = [mkField "" 8 (Some false)].
Proof. eexists _, _, _. repeat split; reflexivity. Qed.

(** C3, amended.  For every valid spec the line allocation, and so
    rendering, leaves the rendering options, the number and the order of
    the fields as they are, and changes neither the text nor the bit length
    of a field that is emitted in one piece (one that fits in the rest of
    its line, or starts a line and fills whole lines).  It does write to
    the dictionaries of the field list: each gets the key ['MF'], set to
    [False]. *)
Theorem allocation_keeps_unsplit_fields (spec : string) (p : Protocol) :
  __init__ spec = Ok p ->
  exists frags p' out,
    _process_field_list p = Some (frags, p')
    /\ __str__ p = Some (out, p')
    /\ same_options p p'
    /\ List.length (field_list p') = List.length (field_list p)
    /\ Forall (fun f => MF f = Some false) (field_list p')
    /\ forall j f,
        nth_error (field_list p) j = Some f ->
        in_one_piece (bits_per_line p) (sum_len (firstn j (field_list p)))
          (len f) ->
        nth_error (field_list p') j = Some (seen f).
Proof.
  intros Hp. destruct (init_parsed spec p Hp) as [Hb _ _ Hpos _ _ _ _ _].
  destruct (process_spec p Hb) as (frags & l' & Hrun & HA).
  destruct (Alloc_unsplit _ _ _ _ _ HA Hb ltac:(lia) Hpos)
    as (Hlen & HMF & Hkeep).
  destruct (str_state p frags _ Hrun) as [out Hout].
  exists frags, (set_field_list p l'), out.
  repeat split; try assumption.
Qed.

Lemma allocation_keeps_unsplit_fields_witness :
  exists frags p' out,
    _process_field_list
      (mkProtocol "+" "+" "+" "-" "|" 8 1 true true true
         [mkField "A" 6 None; mkField "B" 4 None]) = Some (frags, p')
    /\ __str__
         (mkProtocol "+" "+" "+" "-" "|" 8 1 true true true
            [mkField "A" 6 None; mkField "B" 4 None]) = Some (out, p')
    /\ same_options
         (mkProtocol "+" "+" "+" "-" "|" 8 1 true true true
            [mkField "A" 6 None; mkField "B" 4 None]) p'
    /\ List.length (field_list p') = 2%nat
    /\ Forall (fun f => MF f = Some false) (field_list p')
    /\ forall j f,
        nth_error [mkField "A" 6 None; mkField "B" 4 None] j = Some f ->
        in_one_piece 8
          (sum_len (firstn j [mkField "A" 6 None; mkField "B" 4 None]))
          (len f) ->
        nth_error (field_list p') j = Some (seen f).
Proof.
  exact (allocation_keeps_unsplit_fields "A:6,B:4?bits=8" _ eq_refl).
Defined.

(* ================================================================= *)
(** ** The renderer *)

(** *** Lengths of border lines *)

Lemma len_app (a b : string) : Py.len (a ++ b) = Py.len a + Py.len b.
Proof.
  unfold Py.len. induction a as [|c a IH]; cbn [String.append String.length];
    lia.
Qed.

Lemma len_nonneg (s : string) : 0 <= Py.len s.
Proof. unfold Py.len. lia. Qed.

Lemma len_repeat (s : string) (n : nat) :
  Py.len (Py.repeat_nat s n) = Py.len s * Z.of_nat n.
Proof.
  induction n as [|n IH]; cbn [Py.repeat_nat]; [cbn; lia|].
  rewrite len_app, IH. lia.
Qed.

Lemma len_mul (s : string) (n : Z) :
  0 <= n -> Py.len (Py.mul s n) = Py.len s * n.
Proof.
  intros H. unfold Py.mul. rewrite len_repeat, Z2Nat.id by exact H.
  reflexivity.
Qed.

Lemma length_take (n : nat) (s : string) :
  String.length (Py.take n s) = Nat.min n (String.length s).
Proof.
  revert s. induction n as [|n IH]; intros [|c s]; cbn; try reflexivity.
  rewrite IH. reflexivity.
Qed.

Lemma len_but_last (s : string) :
  Py.len (Py.slice_to s (-1)) = Z.max 0 (Py.len s - 1).
Proof.
  unfold Py.slice_to, Py.norm_index, Py.len. cbn [Z.ltb Z.compare].
  rewrite length_take. lia.
Qed.

Section Borders.

Variable self : Protocol.
Hypothesis Hself : parsed self.

Let bpl := bits_per_line self.

Lemma len_horizontal (w : Z) :
  0 < w -> Py.len (_get_horizontal self (Some w)) = 2 * w + 1.
Proof.
  intros Hw. destruct Hself as [_ Hph Hltr _ Hs He Ho Hv _].
  unfold _get_horizontal. rewrite Hltr, Hph.
  destruct (Z.leb_spec w 0); [lia|].
  rewrite !len_app, len_but_last, len_mul, len_app by lia.
  rewrite Hs, He, Ho, Hv. lia.
Qed.

Lemma len_horizontal_full :
  Py.len (_get_horizontal self None) = 2 * bpl + 1.
Proof.
  pose proof (parsed_bits self Hself).
  change (_get_horizontal self None) with (_get_horizontal self (Some bpl)).
  apply len_horizontal. assumption.
Qed.

Lemma horizontal_none (w : Z) : w <= 0 -> _get_horizontal self (Some w) = "".
Proof.
  intros H. unfold _get_horizontal. destruct (Z.leb_spec w 0); [reflexivity|lia].
Qed.

End Borders.

(** *** C6: the line under a continued fragment *)

Lemma floor_line_under (self : Protocol) (before field_len next_len : Z) :
  parsed self ->
  0 <= before -> 0 < field_len ->
  before + field_len = bits_per_line self ->
  floor_line self field_len next_len
  = floor_under self before field_len next_len
  /\ Py.len (floor_under self before field_len next_len)
     = 2 * bits_per_line self + 1.
Proof.
  intros Hself Hb Hf Hsum.
  pose proof Hself as [Hbpl Hph Hltr _ Hs He _ _ _].
  unfold floor_line, floor_under. rewrite Hltr, Hph.
  replace (bits_per_line self - field_len) with before by lia.
  destruct (Z.ltb_spec before next_len) as [Hlt|Hge];
    destruct (Z.ltb_spec 0 (next_len - before)); try lia;
    [|split; [reflexivity | apply len_horizontal_full; exact Hself]].
  assert (Hleft :
            (if Py.len (_get_horizontal self (Some before)) =? 0
             then hdr_char_start self
             else _get_horizontal self (Some before))
            = (if before =? 0 then hdr_char_start self
               else _get_horizontal self (Some before))).
  { destruct (Z.eqb_spec before 0) as [->|].
    - rewrite horizontal_none by lia. reflexivity.
    - rewrite (len_horizontal self Hself) by lia.
      destruct (Z.eqb_spec (2 * before + 1) 0); [lia|reflexivity]. }
  rewrite Hleft.
  assert (Hl : Py.len (if before =? 0 then hdr_char_start self
                       else _get_horizontal self (Some before))
               = 2 * before + 1).
  { destruct (Z.eqb_spec before 0) as [->|]; [exact Hs|].
    apply (len_horizontal self Hself). lia. }
  destruct (Z.leb_spec (bits_per_line self) next_len);
    destruct (Z.leb_spec field_len (next_len - before)); try lia;
    cbn [fst snd].
  - rewrite Z.min_r by lia.
    replace (2 * field_len * 1 - 1) with (2 * field_len - 1) by lia.
    split; [reflexivity|].
    rewrite !len_app, Hl, len_mul, He by lia. change (Py.len " ") with 1. lia.
  - rewrite Z.min_l by lia.
    replace (2 * (next_len - before) * 1 - 1)
      with (2 * (next_len - before) - 1) by lia.
    split; [reflexivity|].
    rewrite !len_app, Hl, len_mul by lia.
    rewrite (len_horizontal self Hself) by lia. change (Py.len " ") with 1. lia.
Qed.

(** C6, as stated, fails.  In ["A:6,B:4?bits=8"] the first half of [B]
    completes the first line with more fragments to come; the next fragment,
    2 bits wide, does not end at the boundary, 6 bits into the line, where
    that half begins; and the line under it is the full border. *)
Lemma full_border_without_alignment :
  exists p p',
    __init__ "A:6,B:4?bits=8" = Ok p
    /\ _process_field_list p
       = Some ([mkField "A" 6 (Some false); mkField "B" 2 (Some true);
                mkField "" 2 (Some false)], p')
    /\ 2 <> bits_per_line p' - 2
    /\ floor_line p' 2 2 = _get_horizontal p' None
    /\ __str__ p
       = Some (Ok (Py.join nl [" 0              ";
                               " 0 1 2 3 4 5 6 7";
                               "+-+-+-+-+-+-+-+-+";
                               "|     A     | B |";
                               "+-+-+-+-+-+-+-+-+";
                               "|   |";
                               "+-+-+"]), p').
Proof.
  eexists _, _. split; [reflexivity|]. split; [reflexivity|].
  split; [discriminate|]. split; reflexivity.
Qed.

(** C6, amended.  When a fragment with more fragments to come completes a
    printed line, the renderer closes the line and emits under it a partial
    border exactly when the next fragment is wider than the bits that stand
    before the completing fragment on that line, that is, when it reaches
    under that fragment: the border under the bits before it, then a gap of
    blanks as wide as the overlap of the next fragment with it (no wider than
    the fragment), then the border under the rest of the line, or the end
    character when nothing is left.  When the next fragment ends at or
    before the place where the completing fragment begins, the full border
    is emitted.  Either way the line is as long as the full border. *)
Theorem continued_fragment_floor (self : Protocol) (n : Z)
  (frag next : field) (rest : list field) (st : render_state) :
  parsed self ->
  MF frag = Some true ->
  0 <= r_bits_in_line st ->
  0 < len frag ->
  r_bits_in_line st + len frag = bits_per_line self ->
  let border :=
    floor_under self (r_bits_in_line st) (len frag) (len next) in
  Py.len border = 2 * bits_per_line self + 1
  /\ exists line,
      render_fields self n (frag :: next :: rest) st
      = render_fields self n (next :: rest)
          (mkRender 0 "" (r_fields_done st + 1)
             (r_lines st ++ [line; border])).
Proof.
  intros Hself Hmf Hb Hf Hsum border.
  destruct (floor_line_under self _ _ (len next) Hself Hb Hf Hsum)
    as [Hfloor Hlen].
  split; [exact Hlen|].
  cbn [render_fields]. rewrite Hmf.
  destruct (Z.leb_spec (len frag) (bits_per_line self - r_bits_in_line st));
    [|lia].
  rewrite Hsum, Z.eqb_refl, Hfloor. unfold appended.
  rewrite <- app_assoc. eexists. reflexivity.
Qed.

Lemma continued_fragment_floor_witness :
  Py.len (floor_under
            (mkProtocol "+" "+" "+" "-" "|" 32 1 true true true
               [mkField "A" 40 None]) 0 32 8) = 65
  /\ exists line,
      render_fields
        (mkProtocol "+" "+" "+" "-" "|" 32 1 true true true
           [mkField "A" 40 None]) 2
        [mkField "A" 32 (Some true); mkField "" 8 (Some false)]
        (mkRender 0 "" 0 [])
      = render_fields
          (mkProtocol "+" "+" "+" "-" "|" 32 1 true true true
             [mkField "A" 40 None]) 2
          [mkField "" 8 (Some false)]
          (mkRender 0 "" 1
             [line;
              "+               +-+-+-+-+-+-+-+-+-+-+-+-+-+-+-+-+-+-+-+-+-+-+-+-+"]).
Proof.
  refine (continued_fragment_floor
            (mkProtocol "+" "+" "+" "-" "|" 32 1 true true true
               [mkField "A" 40 None]) 2
            (mkField "A" 32 (Some true)) (mkField "" 8 (Some false)) []
            (mkRender 0 "" 0 []) (init_parsed "A:40" _ eq_refl) eq_refl _ _ _).
  - cbn. lia.
  - cbn. lia.
  - reflexivity.
Defined.

(** *** C5: what can go wrong while printing *)

Lemma pow_53_1024 : 2 ^ 53 < 2 ^ 1024.
Proof. apply Z.pow_lt_mono_r; lia. Qed.

Lemma round_exact (k : Z) : 0 <= k < 2 ^ 53 -> Float.round k = k.
Proof.
  intros H. unfold Float.round, Float.round_nonneg.
  rewrite Z.abs_eq by lia.
  destruct (Z.ltb_spec k (2 ^ 53)); [|lia].
  destruct (Z.eq_dec k 0) as [->|]; [reflexivity|].
  rewrite Z.sgn_pos by lia. lia.
Qed.

(** Up to [2^52] lines the row count is the intended [2k - 1]; whatever
    the length, nothing but an [OverflowError] comes out of the float
    arithmetic. *)
Lemma lines_to_print_cases (self : Protocol) (n : Z) :
  0 < bits_per_line self ->
  bits_per_line self < n ->
  n mod bits_per_line self = 0 ->
  match lines_to_print self n with
  | Ok rows => n <= 2 ^ 52 * bits_per_line self ->
               rows = 2 * (n / bits_per_line self) - 1
  | Raise e => e = OverflowError /\ 2 ^ 52 * bits_per_line self < n
  end.
Proof.
  intros Hbpl Hn Hmod. set (bpl := bits_per_line self) in *.
  pose proof pow_53_1024 as Hpow.
  assert (Hk : n = bpl * (n / bpl)) by (apply Z.div_exact; lia).
  set (k := n / bpl) in *.
  assert (Hk2 : 2 <= k) by nia.
  unfold lines_to_print, Float.truediv, Float.int_twice_minus_one, Float.huge.
  fold bpl k.
  destruct (Z.le_gt_cases k (2 ^ 52)) as [Hsmall|Hbig].
  - change (2 ^ 52) with 4503599627370496 in *.
    change (2 ^ 53) with 9007199254740992 in *.
    rewrite (round_exact k) by (change (2 ^ 53) with 9007199254740992; lia).
    destruct (Z.leb_spec (2 ^ 1024) (Z.abs k)); [lia|]. cbn [bind].
    destruct (Z.leb_spec (2 ^ 1024) (Z.abs (k * 2))); [lia|].
    rewrite (round_exact (k * 2 - 1))
      by (change (2 ^ 53) with 9007199254740992; lia).
    intros _. lia.
  - assert (Hbig' : 2 ^ 52 * bpl < n) by nia.
    destruct (Z.leb_spec (2 ^ 1024) (Z.abs (Float.round k)));
      cbn [bind]; [split; [reflexivity | exact Hbig']|].
    destruct (Z.leb_spec (2 ^ 1024) (Z.abs (Float.round k * 2)));
      [split; [reflexivity | exact Hbig']|].
    intros. lia.
Qed.

Lemma Alloc_nonempty (bpl b : Z) (f : field) (r frags r' : list field) :
  Alloc bpl b (f :: r) frags r' -> exists next rest, frags = next :: rest.
Proof. inversion 1; eauto. Qed.

Lemma overflow_only_remainder {A : Type} (res : result A) (bpl b : Z)
  (f : field) (r : list field) :
  0 <= bpl - b ->
  overflow_only res bpl (remainder bpl b f :: r) ->
  overflow_only res bpl (f :: r).
Proof.
  intros Hb. destruct res as [|e]; [exact (fun H => H)|].
  intros [He Hex]. split; [exact He|].
  inversion Hex as [? ? H|? ? H]; subst.
  - left. cbn [remainder len] in H. lia.
  - right. exact H.
Qed.

Lemma overflow_only_tail {A : Type} (res : result A) (bpl : Z) (f : field)
  (r : list field) :
  overflow_only res bpl r -> overflow_only res bpl (f :: r).
Proof.
  destruct res as [|e]; [exact (fun H => H)|].
  intros [He Hex]. split; [exact He | right; exact Hex].
Qed.

(** Printing the fragments the allocation returns follows the allocation
    branch by branch: the count of bits in the line is the same on both
    sides, so the test that guards the [assert] never fails, and a fragment
    with more to come always has a fragment after it. *)
Lemma render_follows_Alloc (self : Protocol) (b : Z)
  (l frags l' : list field) :
  Alloc (bits_per_line self) b l frags l' ->
  0 < bits_per_line self -> 0 <= b < bits_per_line self ->
  positive_fields l ->
  forall n st,
    r_bits_in_line st = b ->
    overflow_only (render_fields self n frags st) (bits_per_line self) l.
Proof.
  set (bpl := bits_per_line self).
  induction 1 as [b | b f r frags r' Hfit _ IH | b f r frags r' Hfit Hblk _ IH
                 | b f r frags r' Hfit Hblk HA IH];
    intros Hbpl Hb Hpos n st Hst; subst b.
  - exact I.
  - inversion Hpos as [|? ? Hf Hr]; subst.
    apply overflow_only_tail.
    cbn [render_fields seen MF len]. fold bpl. rewrite Hfit.
    apply Z.leb_le in Hfit.
    destruct (Z.eqb_spec (r_bits_in_line st + len f) bpl).
    + apply IH; (assumption || reflexivity || lia).
    + destruct (r_fields_done st + 1 =? n);
        apply IH; (assumption || reflexivity || lia).
  - inversion Hpos as [|? ? Hf Hr]; subst.
    cbn [render_fields seen MF len]. fold bpl. rewrite Hfit.
    apply andb_true_iff in Hblk as [Hb0 Hm]. rewrite Hb0, Hm.
    apply Z.leb_gt in Hfit. apply Z.eqb_eq in Hb0, Hm.
    pose proof (lines_to_print_cases self (len f) Hbpl ltac:(fold bpl; lia) Hm)
      as Hrows.
    destruct (lines_to_print self (len f)) as [rows|e].
    + apply overflow_only_tail.
      apply IH; (assumption || reflexivity || lia).
    + destruct Hrows as [-> Hbig]. split; [reflexivity | left; exact Hbig].
  - inversion Hpos as [|? ? Hf Hr]; subst. apply Z.leb_gt in Hfit.
    apply overflow_only_remainder with (b := r_bits_in_line st); [lia|].
    destruct (Alloc_nonempty _ _ _ _ _ _ HA) as (next & rest & ->).
    cbn [render_fields piece MF len]. fold bpl.
    destruct (Z.leb_spec (bpl - r_bits_in_line st) (bpl - r_bits_in_line st));
      [|lia].
    replace (r_bits_in_line st + (bpl - r_bits_in_line st)) with bpl by lia.
    rewrite Z.eqb_refl.
    apply IH; try assumption; try reflexivity; try lia.
    constructor; [cbn [remainder len]; lia | exact Hr].
Qed.

(** Printing returns a text or raises [OverflowError], and the latter only
    when a field is more than [2^52] lines long. *)
Lemma str_outcome (p : Protocol) :
  parsed p ->
  exists r p',
    __str__ p = Some (r, p')
    /\ overflow_only r (bits_per_line p) (field_list p).
Proof.
  intros [Hb _ _ Hpos _ _ _ _ _].
  destruct (process_spec p Hb) as (frags & l' & Hrun & HA).
  unfold __str__. rewrite Hrun.
  eexists _, _. split; [reflexivity|].
  pose proof (render_follows_Alloc (set_field_list p l') 0 _ _ _ HA Hb
                ltac:(cbn; lia) Hpos (Z.of_nat (List.length frags))
                (mkRender 0 ""  0
                   (appended
                      match _get_top_numbers (set_field_list p l') with
                      | Some numbers => [numbers]
                      | None => []
                      end (_get_horizontal (set_field_list p l') None)))
                eq_refl) as Hsafe.
  cbn [bits_per_line set_field_list] in Hsafe.
  destruct (render_fields _ _ _ _); exact Hsafe.
Qed.

(** Every object [parse_spec] builds can be printed as long as none of its
    fields is more than [2^52] lines long: the [assert] is not reached, and
    no other exception is raised. *)
Theorem print_succeeds (spec : string) (p : Protocol) :
  __init__ spec = Ok p ->
  Forall (fun f => len f <= 2 ^ 52 * bits_per_line p) (field_list p) ->
  exists out p', __str__ p = Some (Ok out, p').
Proof.
  intros Hp Hsmall.
  destruct (str_outcome p (init_parsed spec p Hp)) as (r & p' & Hr & Hsafe).
  destruct r as [out|e]; [eauto|].
  destruct Hsafe as [_ Hex]. exfalso.
  apply Exists_exists in Hex as (f & Hin & Hbig).
  rewrite Forall_forall in Hsmall. specialize (Hsmall f Hin). lia.
Qed.

(** The [assert], and an index or a key that is not there, are never what
    stops the printing of an object [parse_spec] built. *)
Theorem print_raises_only_overflow (spec : string) (p : Protocol) :
  __init__ spec = Ok p ->
  exists r p',
    __str__ p = Some (r, p')
    /\ r <> Raise AssertionError /\ r <> Raise IndexError
    /\ r <> Raise KeyError.
Proof.
  intros Hp.
  destruct (str_outcome p (init_parsed spec p Hp)) as (r & p' & Hr & Hsafe).
  exists r, p'. split; [exact Hr|].
  destruct r as [out|e]; [repeat split; discriminate|].
  destruct Hsafe as [-> _]. repeat split; discriminate.
Qed.

(** C5 at a spec that is parsed successfully and cannot be printed.  The
    one field of [huge_field_spec] has [10^400] bits, a multiple of the 32
    bits of a line, so it starts a line and fills whole lines; the row count
    of such a field is computed with a float division, and [10^400 / 32] is
    beyond the floats: [__str__] raises [OverflowError]. *)
Theorem huge_field_overflows :
  exists p p',
    __init__ huge_field_spec = Ok p
    /\ field_list p = [mkField "A" (10 ^ 400) None]
    /\ __str__ p = Some (Raise OverflowError, p').
Proof.
  eexists _, _. split; [vm_compute; reflexivity|].
  split; [vm_compute; reflexivity|].
  lazy. reflexivity.
Qed.

(** *** C1: printing twice *)

(** C1 at a spec whose second print differs from the first.  The 40-bit
    field of ["A:40"] is split at 32 bits; the allocation of the first
    print leaves the 8 bits of the remainder, and no text, in the field
    list, and the second print shows those. *)
Theorem second_print_differs :
  exists p out1 out2,
    __init__ "A:40" = Ok p
    /\ prints 2 p = Some [Ok out1; Ok out2]
    /\ String.eqb out1 out2 = false
    /\ out2 = Py.join nl
                [" 0                   1                   2                   3  ";
                 " 0 1 2 3 4 5 6 7 8 9 0 1 2 3 4 5 6 7 8 9 0 1 2 3 4 5 6 7 8 9 0 1";
                 "+-+-+-+-+-+-+-+-+-+-+-+-+-+-+-+-+-+-+-+-+-+-+-+-+-+-+-+-+-+-+-+-+";
                 "|               |";
                 "+-+-+-+-+-+-+-+-+"].
Proof.
  eexists _, _, _. split; [reflexivity|].
  split; [vm_compute; reflexivity|].
  split; vm_compute; reflexivity.
Qed.

(** Where no field is split, the allocation changes nothing but the ['MF']
    keys, and printing again gives the same text. *)
Lemma Alloc_whole (bpl b : Z) (l frags l' : list field) :
  Alloc bpl b l frags l' ->
  0 < bpl -> 0 <= b < bpl -> positive_fields l ->
  (forall j f,
      nth_error l j = Some f ->
      in_one_piece bpl (b + sum_len (firstn j l)) (len f)) ->
  frags = map seen l /\ l' = map seen l.
Proof.
  induction 1 as [b | b f r frags r' Hfit _ IH | b f r frags r' Hfit Hblk _ IH
                 | b f r frags r' Hfit Hblk _ IH];
    intros Hbpl Hb Hpos Hall.
  - split; reflexivity.
  - inversion Hpos as [|? ? Hf Hr]; subst. apply Z.leb_le in Hfit.
    set (b' := if b + len f =? bpl then 0 else b + len f) in *.
    assert (Hb' : 0 <= b' < bpl)
      by (unfold b'; destruct (Z.eqb_spec (b + len f) bpl); lia).
    destruct (IH Hbpl Hb' Hr) as [-> ->]; [|split; reflexivity].
    intros j x Hx. specialize (Hall (S j) x Hx). revert Hall.
    apply in_one_piece_mod.
    cbn [firstn sum_len fold_right]. fold (sum_len (firstn j r)).
    replace (b + (len f + sum_len (firstn j r)))
      with (b + len f + sum_len (firstn j r)) by lia.
    apply mod_shift; [exact Hbpl|]. unfold b'.
    destruct (Z.eqb_spec (b + len f) bpl) as [->|].
    + rewrite Z.sub_0_r. apply Z_mod_same_full.
    + rewrite Z.sub_diag. apply Zmod_0_l.
  - inversion Hpos as [|? ? Hf Hr]; subst.
    apply andb_true_iff in Hblk as [Hb0 Hm]. apply Z.eqb_eq in Hb0, Hm.
    destruct (IH Hbpl ltac:(lia) Hr) as [-> ->]; [|split; reflexivity].
    intros j x Hx. specialize (Hall (S j) x Hx). revert Hall.
    apply in_one_piece_mod.
    cbn [firstn sum_len fold_right]. fold (sum_len (firstn j r)).
    replace (b + (len f + sum_len (firstn j r)))
      with (b + len f + sum_len (firstn j r)) by lia.
    apply mod_shift; [exact Hbpl|]. subst b.
    rewrite Z.sub_0_r. exact Hm.
  - exfalso. apply Z.leb_gt in Hfit.
    specialize (Hall O f eq_refl). unfold in_one_piece in Hall.
    cbn [firstn sum_len fold_right] in Hall.
    rewrite Z.add_0_r, Z.mod_small in Hall by lia.
    destruct Hall as [H|[H1 H2]]; [lia|].
    rewrite H1, H2, !Z.eqb_refl in Hblk. discriminate.
Qed.

Lemma sum_len_seen (l : list field) (j : nat) :
  sum_len (firstn j (map seen l)) = sum_len (firstn j l).
Proof.
  revert j. unfold sum_len.
  induction l as [|f l IH]; intros [|j]; cbn [map firstn fold_right seen len];
    try reflexivity.
  rewrite IH. reflexivity.
Qed.

(** Printing twice gives the same result when the allocation splits no
    field: when every field either fits in what is left of its line, or
    starts a line and fills whole lines. *)
Theorem print_twice_without_split (spec : string) (p : Protocol) :
  __init__ spec = Ok p ->
  (forall j f,
      nth_error (field_list p) j = Some f ->
      in_one_piece (bits_per_line p) (sum_len (firstn j (field_list p)))
        (len f)) ->
  exists out, prints 2 p = Some [out; out].
Proof.
  intros Hp Hall. destruct (init_parsed spec p Hp) as [Hb _ _ Hpos _ _ _ _ _].
  set (l := field_list p) in *. set (bpl := bits_per_line p) in *.
  assert (Hrun : forall l0, l0 = l \/ l0 = map seen l ->
                            process_from bpl l0 = Some (map seen l, map seen l)).
  { intros l0 Hl0.
    destruct (process_from_spec bpl l0 Hb) as (frags & l' & -> & HA).
    assert (Hseen : map seen l0 = map seen l).
    { destruct Hl0 as [->| ->]; [reflexivity|].
      rewrite map_map. apply map_ext. reflexivity. }
    destruct (Alloc_whole _ _ _ _ _ HA Hb ltac:(lia)) as [-> ->].
    - destruct Hl0 as [->| ->]; [exact Hpos|].
      unfold positive_fields in *. rewrite Forall_map. exact Hpos.
    - intros j f Hf. cbn [Z.add]. destruct Hl0 as [->| ->]; [auto|].
      rewrite sum_len_seen. rewrite nth_error_map in Hf.
      destruct (nth_error l j) as [g|] eqn:Eg; [|discriminate].
      injection Hf as <-. exact (Hall j g Eg).
    - rewrite Hseen. reflexivity. }
  cbn [prints]. unfold __str__, _process_field_list. fold bpl l.
  rewrite (Hrun l) by (left; reflexivity).
  cbn [option_map field_list bits_per_line set_field_list].
  fold bpl. rewrite (Hrun (map seen l)) by (right; reflexivity).
  cbn [option_map]. eexists. reflexivity.
Qed.

Lemma print_twice_without_split_witness :
  exists out,
    prints 2 (mkProtocol "+" "+" "+" "-" "|" 8 1 true true true
                [mkField "A" 3 None; mkField "B" 5 None;
                 mkField "C" 16 None])
    = Some [out; out].
Proof.
  refine (print_twice_without_split "A:3,B:5,C:16?bits=8" _ eq_refl _).
  intros [|[|[|[|j]]]] f Hf; cbn in Hf; try discriminate;
    injection Hf as <-; unfold in_one_piece; cbn; lia.
Defined.

(* ================================================================= *)
(** ** More about the parser *)

Lemma split_two (c : ascii) (s : string) :
  0 < Py.count c s -> exists a b l, Py.split c s = a :: b :: l.
Proof.
  intros H. pose proof (split_length c s) as Hl.
  destruct (Py.split c s) as [|a [|b l]]; cbn [List.length] in Hl;
    try lia; eauto.
Qed.

Lemma init_raises (spec : string) (e : exn) :
  __init__ spec = Raise e -> exists msg, e = ProtocolException msg.
Proof.
  unfold __init__, parse_spec, Py.contains.
  destruct (Z.ltb_spec 0 (Py.count "?" spec)) as [Hq|Hq].
  - destruct (split_two "?" spec Hq) as (a & b & l & ->).
    destruct (1 <? Py.count "?" spec); cbn [bind fst snd];
      [intros [= <-]; eauto|].
    destruct (for_each (parse_item spec) (Py.split "," a) initial)
      as [s|e0] eqn:E; cbn [bind].
    + intros H.
      exact (for_each_raises parse_opt
               (fun e => exists msg, e = ProtocolException msg)
               parse_opt_raises _ _ _ H).
    + intros [= <-].
      exact (for_each_raises (parse_item spec)
               (fun e => exists msg, e = ProtocolException msg)
               (parse_item_raises spec) _ _ _ E).
  - cbn [bind fst snd].
    destruct (for_each (parse_item spec) (Py.split "," spec) initial)
      as [s|e0] eqn:E; cbn [bind]; [discriminate|].
    intros [= <-].
    exact (for_each_raises (parse_item spec)
             (fun e => exists msg, e = ProtocolException msg)
             (parse_item_raises spec) _ _ _ E).
Qed.

(** Whatever stops the construction is a [ProtocolException]: the errors
    of [split], of unpacking and of [int] never get out, and [parts[1]] is
    always there when it is read. *)
Theorem construction_raises_protocol_exception (spec : string) :
  match __init__ spec with
  | Ok _ => True
  | Raise e => exists msg, e = ProtocolException msg
  end.
Proof.
  destruct (__init__ spec) as [p|e] eqn:E; [exact I|].
  exact (init_raises spec e E).
Qed.

(** *** What a constructed object looks like *)

Lemma parse_item_grows (spec : string) (s : Protocol) (item : string)
  (s' : Protocol) :
  parse_item spec s item = Ok s' ->
  exists f, field_list s' = (field_list s ++ [f])%list /\ MF f = None.
Proof.
  unfold parse_item.
  destruct (Py.split ":" item) as [|t [|b [|? ?]]]; try discriminate.
  destruct (Py.int b) as [n|]; [|discriminate].
  destruct (n <=? 0); [discriminate|].
  intros [= <-]. eexists. split; reflexivity.
Qed.

Lemma parse_items_fresh (spec : string) (items : list string) :
  forall s s',
    for_each (parse_item spec) items s = Ok s' ->
    Forall (fun f => MF f = None) (field_list s) ->
    Forall (fun f => MF f = None) (field_list s')
    /\ List.length (field_list s')
       = (List.length (field_list s) + List.length items)%nat.
Proof.
  induction items as [|item items IH]; intros s s'; cbn [for_each].
  - intros [= <-] H. split; [exact H | cbn; lia].
  - destruct (parse_item spec s item) as [s1|] eqn:E; cbn [bind];
      [|discriminate].
    intros Hrest Hs.
    destruct (parse_item_grows _ _ _ _ E) as (f & Hf & Hmf).
    destruct (IH s1 s' Hrest) as [H1 H2].
    + rewrite Hf. apply Forall_app. split; [exact Hs|]. repeat constructor.
      exact Hmf.
    + split; [exact H1|]. rewrite H2, Hf, length_app. cbn [List.length]. lia.
Qed.

(** Every object the constructor returns has at least one field, one for
    each comma-separated item of the field part and none of them seen by the
    allocation yet; all fields have a positive length; the line width is
    positive; the five border characters are single characters; a bit takes
    one place; printing goes from left to right. *)
Theorem constructed_object (spec : string) (p : Protocol) :
  __init__ spec = Ok p ->
  parsed p
  /\ field_list p <> []
  /\ List.length (field_list p)
     = List.length (Py.split "," (fields_part spec))
  /\ Forall (fun f => MF f = None) (field_list p).
Proof.
  intros Hp. split; [exact (init_parsed spec p Hp)|].
  revert Hp. unfold __init__, parse_spec, fields_part, Py.contains.
  assert (Hitems :
            forall fields s,
              for_each (parse_item spec) (Py.split "," fields) initial = Ok s ->
              field_list s <> []
              /\ List.length (field_list s)
                 = List.length (Py.split "," fields)
              /\ Forall (fun f => MF f = None) (field_list s)).
  { intros fields s Hs.
    destruct (parse_items_fresh spec _ _ _ Hs (Forall_nil _)) as [H1 H2].
    cbn [field_list initial List.length Nat.add] in H2.
    repeat split; try assumption.
    intros E. rewrite E in H2. cbn [List.length] in H2.
    pose proof (split_not_nil "," fields).
    destruct (Py.split "," fields); [congruence|discriminate]. }
  destruct (Z.ltb_spec 0 (Py.count "?" spec)) as [Hq|Hq].
  - destruct (split_two "?" spec Hq) as (a & b & l & ->). cbn [hd].
    destruct (1 <? Py.count "?" spec); cbn [bind fst snd]; [discriminate|].
    destruct (for_each (parse_item spec) (Py.split "," a) initial)
      as [s|] eqn:E; cbn [bind]; [|discriminate].
    intros Ho. destruct (parse_opts_frame _ _ _ initial Ho) as [-> _].
    exact (Hitems a s E).
  - pose proof (count_nonneg "?" spec).
    rewrite (split_none "?" spec) by lia. cbn [bind fst snd hd].
    destruct (for_each (parse_item spec) (Py.split "," spec) initial)
      as [s|] eqn:E; cbn [bind]; [|discriminate].
    intros [= <-]. exact (Hitems spec s E).
Qed.

Lemma constructed_object_witness :
  parsed (mkProtocol "+" "+" "+" "-" "!" 8 1 true true true
            [mkField "A" 4 None; mkField "B" 12 None])
  /\ [mkField "A" 4 None; mkField "B" 12 None] <> []
  /\ 2%nat = List.length (Py.split "," (fields_part "A:4,B:12?bits=8,sepchar=!"))
  /\ Forall (fun f => MF f = None) [mkField "A" 4 None; mkField "B" 12 None].
Proof.
  exact (constructed_object "A:4,B:12?bits=8,sepchar=!" _ eq_refl).
Defined.

(** *** Reading back what was written *)

Lemma int_str (n : Z) :
  Py.len (Py.str (Z.abs n)) <= Py.max_str_digits ->
  Py.int (Py.str n) = Some n.
Proof.
  destruct n as [|p|p]; [reflexivity | apply int_str_pos |].
  cbn [Z.abs]. intros Hshort.
  pose proof (string_of_uint_digits (Pos.to_uint p)) as Hd.
  assert (Hne : NilEmpty.string_of_uint (Pos.to_uint p) <> "").
  { pose proof (Unsigned.to_uint_nonnil p) as Hn.
    destruct (Pos.to_uint p); [congruence| discriminate ..]. }
  pose proof (int_str_pos p Hshort) as Hp.
  unfold Py.str in *. cbn [Z.to_int NilEmpty.string_of_int] in *.
  rewrite int_digits in Hp by exact Hd.
  set (ds := NilEmpty.string_of_uint (Pos.to_uint p)) in *.
  unfold Py.int. cbn [Py.map_chars].
  rewrite (map_chars_digits ds Hd).
  change (Py.space_to_ascii "-") with "-"%char.
  change (Py.lstrip (String "-" ds)) with (String "-" ds).
  cbn [Py.rstrip]. rewrite (rstrip_digits ds Hd).
  change (Py.is_ascii_space "-") with false.
  destruct ds as [|c r]; [congruence|].
  rewrite Hp. reflexivity.
Qed.

Lemma field_of_written_item (f : field) :
  0 < len f -> short_number (len f) -> MF f = None ->
  Py.count ":" (text f) = 0 ->
  field_of_item (item_of_field f) = Some f.
Proof.
  intros Hlen Hshort Hmf Hname. unfold field_of_item, item_of_field.
  unfold short_number in Hshort.
  change (":" ++ Py.str (len f)) with (String ":" (Py.str (len f))).
  rewrite split_app by exact Hname.
  destruct (len f) as [|q|q] eqn:El; try lia.
  rewrite split_none
    by (apply (all_chars_count Py.is_digit);
        [apply str_pos_digits | reflexivity]).
  rewrite int_str_pos by exact Hshort. cbn [Z.leb Z.compare].
  destruct f as [t n m]. cbn in *. subst. reflexivity.
Qed.

Lemma written_item_plain (c : ascii) (f : field) :
  0 < len f -> Py.is_digit c = false -> c <> ":"%char ->
  Py.count c (text f) = 0 -> Py.count c (item_of_field f) = 0.
Proof.
  intros Hlen Hc Hcolon Hname. unfold item_of_field.
  rewrite !count_app, Hname.
  destruct (len f) as [|q|q]; try lia.
  rewrite (all_chars_count Py.is_digit c _ (str_pos_digits q) Hc).
  cbn [Py.count]. destruct (Ascii.eqb_spec ":" c); [congruence|reflexivity].
Qed.

(** Writing and reading back.  A list of fields that is not empty, with
    positive lengths of no more than 4300 digits and names free of [','],
    [':'] and ['?'], written as [name:bits] items joined by commas, is
    parsed into the same fields in the same order, the names kept as they
    are (blanks included), under the default options. *)
Theorem spec_round_trip (l : list field) :
  l <> [] ->
  Forall (fun f => 0 < len f /\ short_number (len f) /\ MF f = None
                   /\ plain_name (text f)) l ->
  __init__ (spec_of_fields l) = Ok (set_field_list initial l).
Proof.
  intros Hne Hl. unfold spec_of_fields.
  assert (Hsep : forall c, (c = "," \/ c = "?")%char ->
                           Forall (fun s => Py.count c s = 0)
                             (map item_of_field l)).
  { intros c Hc. rewrite Forall_map. eapply Forall_impl; [|exact Hl].
    intros f (Hlen & _ & _ & Hcomma & _ & Hq).
    apply written_item_plain; try assumption.
    - destruct Hc; subst; reflexivity.
    - destruct Hc; subst; discriminate.
    - destruct Hc; subst; assumption. }
  assert (Hitems : fields_of_items (map item_of_field l) = l
                   /\ Forall valid_item (map item_of_field l)).
  { clear Hne Hsep.
    induction Hl as [|f r (Hlen & Hshort & Hmf & _ & Hcolon & _) _ IH].
    - split; [reflexivity | constructor].
    - destruct IH as [IH1 IH2].
      pose proof (field_of_written_item f Hlen Hshort Hmf Hcolon) as Hf.
      split.
      + unfold fields_of_items in *. cbn [map flat_map].
        rewrite Hf, IH1. reflexivity.
      + constructor; [unfold valid_item; congruence | exact IH2]. }
  destruct Hitems as [Hfields Hvalid].
  assert (Hmap : map item_of_field l <> []) by (destruct l; [congruence|discriminate]).
  unfold __init__, parse_spec.
  rewrite (proj2 (contains_count "?" _))
    by (apply join_count; [apply Hsep; auto | discriminate]).
  cbn [bind fst snd]. rewrite split_join by auto.
  rewrite (parse_items_valid _ _ Hvalid), Hfields. reflexivity.
Qed.

Lemma spec_round_trip_witness :
  __init__ "Source Port:16, Flags :3"
  = Ok (set_field_list initial
          [mkField "Source Port" 16 None; mkField " Flags " 3 None]).
Proof.
  apply (spec_round_trip
           [mkField "Source Port" 16 None; mkField " Flags " 3 None]).
  - discriminate.
  - repeat constructor; vm_compute; discriminate.
Defined.

(** *** Specs that are refused *)

Lemma for_each_ok_each {A S : Type} (body : S -> A -> result S) (l : list A) :
  forall s s',
    for_each body l s = Ok s' ->
    forall a, In a l -> exists s1 s2, body s1 a = Ok s2.
Proof.
  induction l as [|x l IH]; intros s s' H a Ha; [contradiction|].
  cbn [for_each] in H.
  destruct (body s x) as [s1|] eqn:E; cbn [bind] in H; [|discriminate].
  destruct Ha as [->|Ha]; [eauto | exact (IH _ _ H a Ha)].
Qed.

(** A spec with an item anywhere in its field part that is not a valid
    item (not one [':'] in it, or after the [':'] something that is not an
    integer, or an integer that is not positive) is refused, whatever else
    it holds. *)
Theorem invalid_item_refused (spec item : string) :
  In item (Py.split "," (fields_part spec)) ->
  field_of_item item = None ->
  is_protocol_exception (__init__ spec).
Proof.
  intros Hin Hbad.
  destruct (__init__ spec) as [p|e] eqn:E.
  - exfalso. revert E. unfold __init__, parse_spec, Py.contains.
    unfold fields_part in Hin.
    assert (Hno : forall fields s,
               In item (Py.split "," fields) ->
               for_each (parse_item spec) (Py.split "," fields) initial
               <> Ok s).
    { intros fields s Hi Hs.
      destruct (for_each_ok_each _ _ _ _ Hs item Hi) as (s1 & s2 & H12).
      destruct (parse_item_invalid spec s1 item Hbad) as [msg Hm].
      congruence. }
    destruct (Z.ltb_spec 0 (Py.count "?" spec)) as [Hq|Hq].
    + destruct (split_two "?" spec Hq) as (a & b & l & Hs).
      rewrite Hs in *. cbn [hd] in Hin.
      destruct (1 <? Py.count "?" spec); cbn [bind fst snd]; [discriminate|].
      destruct (for_each (parse_item spec) (Py.split "," a) initial)
        as [s|] eqn:Ea; cbn [bind]; [|discriminate].
      exfalso. exact (Hno a s Hin Ea).
    + pose proof (count_nonneg "?" spec).
      rewrite (split_none "?" spec) in Hin by lia. cbn [hd] in Hin.
      cbn [bind fst snd].
      destruct (for_each (parse_item spec) (Py.split "," spec) initial)
        as [s|] eqn:Ea; cbn [bind]; [|discriminate].
      exfalso. exact (Hno spec s Hin Ea).
  - destruct (init_raises spec e E) as [msg ->].
    exists msg. reflexivity.
Qed.

Lemma invalid_item_refused_witness :
  is_protocol_exception (__init__ "A:4,B:0,C?bits=8").
Proof.
  apply (invalid_item_refused "A:4,B:0,C?bits=8" "C").
  - cbn. auto.
  - reflexivity.
Defined.

(** *** The options, one by one *)

Lemma parse_opt_malformed (s : Protocol) (opt : string) :
  Py.count "=" opt <> 1 -> parse_opt s opt = Raise (invalid_options opt).
Proof.
  intros H. unfold parse_opt. pose proof (split_length "=" opt) as Hl.
  destruct (Py.split "=" opt) as [|a [|b [|c l]]]; cbn [List.length] in Hl;
    try reflexivity.
  lia.
Qed.

(** A spec with one ['?'] and, anywhere among its comma-separated options,
    one that does not have exactly one ['='] in it is refused: so is a spec
    that ends in ['?'], or whose options end in a comma. *)
Theorem malformed_option_refused (spec opt : string) :
  Py.count "?" spec = 1 ->
  In opt (Py.split "," (options_part spec)) ->
  Py.count "=" opt <> 1 ->
  is_protocol_exception (__init__ spec).
Proof.
  intros Hq Hin Hbad.
  destruct (__init__ spec) as [p|e] eqn:E.
  - exfalso. revert E. unfold __init__, parse_spec, Py.contains.
    unfold options_part in Hin. rewrite Hq.
    destruct (split_two "?" spec ltac:(lia)) as (a & b & l & Hs).
    rewrite Hs in *. cbn [nth] in Hin.
    cbn [Z.ltb Z.compare Pos.compare Pos.compare_cont bind fst snd].
    destruct (for_each (parse_item spec) (Py.split "," a) initial)
      as [s|]; cbn [bind]; [|discriminate].
    intros Ho.
    destruct (for_each_ok_each _ _ _ _ Ho opt Hin) as (s1 & s2 & H12).
    rewrite (parse_opt_malformed s1 opt Hbad) in H12. discriminate.
  - destruct (init_raises spec e E) as [msg ->]. exists msg. reflexivity.
Qed.

Lemma malformed_option_refused_witness :
  is_protocol_exception (__init__ "A:8?").
Proof.
  apply (malformed_option_refused "A:8?" "").
  - reflexivity.
  - cbn. auto.
  - cbn. lia.
Defined.

Lemma lower_no_equals (var key : string) :
  Py.lower var = key -> Py.count "=" key = 0 -> Py.count "=" var = 0.
Proof.
  intros <- H. apply lower_count; [left; reflexivity | exact H].
Qed.

Lemma split_option (var value : string) :
  Py.count "=" var = 0 -> Py.count "=" value = 0 ->
  Py.split "=" (var ++ "=" ++ value) = [var; value].
Proof.
  intros Hvar Hvalue. change ("=" ++ value) with (String "=" value).
  rewrite split_app by exact Hvar. rewrite split_none by exact Hvalue.
  reflexivity.
Qed.

(** An option with a key that [parse_spec] does not know is accepted and
    changes nothing. *)
Theorem unknown_option_ignored (self : Protocol) (var value : string) :
  Py.count "=" var = 0 -> Py.count "=" value = 0 ->
  mem (Py.lower var) known_keys = false ->
  parse_opt self (var ++ "=" ++ value) = Ok self.
Proof.
  intros Hvar Hvalue Hkey. unfold parse_opt.
  rewrite split_option by assumption.
  unfold known_keys in Hkey. cbn [mem existsb] in *.
  repeat (apply orb_false_iff in Hkey as [? Hkey]).
  repeat match goal with
         | H : String.eqb _ _ = false |- _ => rewrite H; clear H
         end.
  reflexivity.
Qed.

Lemma unknown_option_ignored_witness :
  parse_opt initial "Bit=8" = Ok initial.
Proof.
  apply (unknown_option_ignored initial "Bit" "8"); reflexivity.
Defined.

(** The five character options.  Under any of the keys [oddchar],
    [evenchar], [startchar], [endchar], [sepchar] (in any letter case) a
    value of exactly one character replaces that character of the object, and
    nothing else; any other value, the empty one too, is refused, with a
    message that names key and value as they were written. *)
Theorem character_option (self : Protocol) (var value : string) :
  mem (Py.lower var)
    ["oddchar"; "evenchar"; "startchar"; "endchar"; "sepchar"] = true ->
  Py.count "=" value = 0 ->
  parse_opt self (var ++ "=" ++ value)
  = if Py.len value =? 1 then Ok (set_char (Py.lower var) self value)
    else Raise (ProtocolException
                  ("FATAL: Invalid value for '" ++ var ++ "' option ("
                     ++ value ++ ")")).
Proof.
  intros Hkey Hvalue.
  assert (Hvar : Py.count "=" var = 0).
  { cbn [mem existsb] in Hkey.
    repeat (apply orb_true_iff in Hkey as [Hkey|Hkey]);
      try discriminate; apply String.eqb_eq in Hkey;
      exact (lower_no_equals var _ Hkey eq_refl). }
  unfold parse_opt. rewrite split_option by assumption. rewrite Hkey.
  assert (Hnot : String.eqb (Py.lower var) "bits" = false
                 /\ String.eqb (Py.lower var) "numbers" = false).
  { cbn [mem existsb] in Hkey.
    repeat (apply orb_true_iff in Hkey as [Hkey|Hkey]);
      try discriminate; apply String.eqb_eq in Hkey; rewrite Hkey;
      split; reflexivity. }
  destruct Hnot as [-> ->]. unfold set_char.
  pose proof (len_nonneg value).
  destruct (Z.eqb_spec (Py.len value) 1) as [E|E].
  - rewrite E. cbn [Z.ltb Z.leb Z.compare Pos.compare orb].
    repeat match goal with
           | |- context [String.eqb ?a ?b] => destruct (String.eqb a b)
           end; reflexivity.
  - destruct (Z.ltb_spec 1 (Py.len value));
      destruct (Z.leb_spec (Py.len value) 0); cbn [orb]; try reflexivity.
    lia.
Qed.

Lemma character_option_witness :
  parse_opt initial "SepChar=!" = Ok (set_hdr_char_sep initial "!").
Proof.
  apply (character_option initial "SepChar" "!"); reflexivity.
Defined.

Lemma str_no_equals (n : Z) : Py.count "=" (Py.str n) = 0.
Proof.
  destruct n as [|p|p]; [reflexivity | |].
  - apply (all_chars_count Py.is_digit); [apply str_pos_digits|reflexivity].
  - unfold Py.str. cbn [Z.to_int NilEmpty.string_of_int Py.count].
    rewrite (all_chars_count Py.is_digit "=" _
               (string_of_uint_digits (Pos.to_uint p)) eq_refl).
    reflexivity.
Qed.

(** The [bits] option with a number written in decimal, in no more than
    4300 digits: a positive number becomes the line width, and nothing else
    changes; zero and the negative numbers are refused. *)
Theorem bits_option (self : Protocol) (var : string) (n : Z) :
  Py.lower var = "bits" ->
  short_number n ->
  parse_opt self (var ++ "=" ++ Py.str n)
  = if n <=? 0 then
      Raise (ProtocolException
               ("FATAL: Invalid value for 'bits' option (" ++ Py.str n ++ ")"))
    else Ok (set_bits_per_line self n).
Proof.
  intros Hvar Hshort. unfold parse_opt.
  rewrite split_option
    by (exact (lower_no_equals var _ Hvar eq_refl) || apply str_no_equals).
  rewrite Hvar, int_str by exact Hshort. reflexivity.
Qed.

Lemma bits_option_witness :
  parse_opt initial "BITS=16" = Ok (set_bits_per_line initial 16).
Proof.
  refine (bits_option initial "BITS" 16 eq_refl _).
  vm_compute. discriminate.
Defined.

(* ================================================================= *)
(** ** More about the line allocator *)

(** A property of a fragment, of the place in its line where it starts
    and of the fragments after it, that holds at each branch of the loop
    holds of every fragment returned. *)
Lemma Alloc_at (bpl : Z) (P : Z -> field -> list field -> Prop) :
  0 < bpl ->
  (forall b f c, 0 <= b < bpl -> 0 < len f -> len f <= bpl - b ->
                 P b (seen f) c) ->
  (forall f c, bpl < len f -> len f mod bpl = 0 -> P 0 (seen f) c) ->
  (forall b f c, 0 <= b < bpl -> bpl - b < len f -> c <> [] ->
                 P b (piece bpl b f) c) ->
  forall b l frags l',
    Alloc bpl b l frags l' ->
    0 <= b < bpl -> positive_fields l ->
    forall a f c,
      frags = (a ++ f :: c)%list -> P ((b + sum_len a) mod bpl) f c.
Proof.
  intros Hbpl Pfit Pblock Psplit.
  induction 1 as [b | b f r frags r' Hfit _ IH | b f r frags r' Hfit Hblk _ IH
                 | b f r frags r' Hfit Hblk HA IH];
    intros Hb Hpos a x c E.
  - destruct a; discriminate.
  - inversion Hpos as [|? ? Hf Hr]; subst. apply Z.leb_le in Hfit.
    destruct a as [|y a]; injection E as <- ->.
    + cbn [sum_len fold_right]. rewrite Z.add_0_r, Z.mod_small by lia.
      apply Pfit; assumption.
    + cbn [sum_len fold_right seen len]. fold (sum_len a).
      set (b' := if b + len f =? bpl then 0 else b + len f) in *.
      assert (Hb' : 0 <= b' < bpl)
        by (unfold b'; destruct (Z.eqb_spec (b + len f) bpl); lia).
      replace ((b + (len f + sum_len a)) mod bpl)
        with ((b' + sum_len a) mod bpl);
        [exact (IH Hb' Hr a x c eq_refl)|].
      symmetry.
      replace (b + (len f + sum_len a)) with (b + len f + sum_len a) by lia.
      apply mod_shift; [exact Hbpl|]. unfold b'.
      destruct (Z.eqb_spec (b + len f) bpl) as [->|].
      * rewrite Z.sub_0_r. apply Z_mod_same_full.
      * rewrite Z.sub_diag. apply Zmod_0_l.
  - inversion Hpos as [|? ? Hf Hr]; subst. apply Z.leb_gt in Hfit.
    apply andb_true_iff in Hblk as [Hb0 Hm].
    apply Z.eqb_eq in Hb0, Hm. subst b.
    destruct a as [|y a]; injection E as <- ->.
    + cbn [sum_len fold_right]. rewrite Zmod_0_l.
      apply Pblock; [lia | exact Hm].
    + cbn [sum_len fold_right seen len]. fold (sum_len a).
      replace ((0 + (len f + sum_len a)) mod bpl)
        with ((0 + sum_len a) mod bpl);
        [exact (IH Hb Hr a x c eq_refl)|].
      symmetry.
      replace (0 + (len f + sum_len a)) with (len f + sum_len a) by lia.
      apply mod_shift; [exact Hbpl|]. rewrite Z.sub_0_r. exact Hm.
  - inversion Hpos as [|? ? Hf Hr]; subst. apply Z.leb_gt in Hfit.
    destruct a as [|y a]; injection E as <- ->.
    + cbn [sum_len fold_right]. rewrite Z.add_0_r, Z.mod_small by lia.
      apply Psplit; [exact Hb | lia |].
      destruct (Alloc_nonempty _ _ _ _ _ _ HA) as (? & ? & ->). discriminate.
    + cbn [sum_len fold_right piece len]. fold (sum_len a).
      replace ((b + (bpl - b + sum_len a)) mod bpl)
        with ((0 + sum_len a) mod bpl).
      * apply (IH ltac:(lia)) with (c := c); [|reflexivity].
        constructor; [cbn [remainder len]; lia | exact Hr].
      * symmetry.
        replace (b + (bpl - b + sum_len a)) with (bpl + sum_len a) by lia.
        apply mod_shift; [exact Hbpl|]. rewrite Z.sub_0_r.
        apply Z_mod_same_full.
Qed.

(** Every fragment carries the ['MF'] key.  A fragment with more
    fragments to come fills its line exactly to the end and is never the
    last fragment; a fragment without stays within its line, or starts a
    line and fills whole lines. *)
Theorem fragments_placed (bpl : Z) (l : list field) :
  0 < bpl ->
  positive_fields l ->
  exists frags l',
    process_from bpl l = Some (frags, l')
    /\ forall a f c,
        frags = (a ++ f :: c)%list -> placed bpl (sum_len a mod bpl) f c.
Proof.
  intros Hbpl Hpos.
  destruct (process_from_spec bpl l Hbpl) as (frags & l' & Hrun & HA).
  exists frags, l'. split; [exact Hrun|]. intros a f c E.
  apply (Alloc_at bpl (placed bpl) Hbpl) with (b := 0) (l := l) (l' := l')
                                              (frags := frags);
    try assumption; try lia; unfold placed; cbn [seen piece MF len].
  - intros; left; assumption.
  - intros; right; split; [reflexivity | assumption].
  - intros; split; [reflexivity | assumption].
Qed.

Lemma fragments_placed_witness :
  exists frags l',
    process_from 8 [mkField "A" 6 None; mkField "B" 20 None]
    = Some (frags, l')
    /\ forall a f c,
        frags = (a ++ f :: c)%list -> placed 8 (sum_len a mod 8) f c.
Proof.
  apply (fragments_placed 8 [mkField "A" 6 None; mkField "B" 20 None]).
  - lia.
  - repeat constructor.
Defined.

Lemma Alloc_cut_up (bpl b : Z) (l frags l' : list field) :
  Alloc bpl b l frags l' ->
  0 <= b < bpl -> positive_fields l ->
  exists groups, List.concat groups = frags /\ Forall2 cut_up groups l.
Proof.
  induction 1 as [b | b f r frags r' Hfit _ IH | b f r frags r' Hfit Hblk _ IH
                 | b f r frags r' Hfit Hblk _ IH];
    intros Hb Hpos.
  - exists []. split; constructor.
  - inversion Hpos as [|? ? Hf Hr]; subst. apply Z.leb_le in Hfit.
    destruct IH as (gs & <- & HF);
      [destruct (Z.eqb_spec (b + len f) (bpl)); lia | exact Hr |].
    exists ([seen f] :: gs). split; [reflexivity|].
    constructor; [|exact HF]. split.
    + exists [], (seen f). repeat split; (constructor || assumption).
    + exists [], []. repeat split; constructor.
  - inversion Hpos as [|? ? Hf Hr]; subst.
    destruct IH as (gs & <- & HF); [lia | exact Hr |].
    exists ([seen f] :: gs). split; [reflexivity|].
    constructor; [|exact HF]. split.
    + exists [], (seen f). repeat split; (constructor || assumption).
    + exists [], []. repeat split; constructor.
  - inversion Hpos as [|? ? Hf Hr]; subst. apply Z.leb_gt in Hfit.
    destruct IH as (gs & <- & HF);
      [lia | constructor; [cbn [remainder len]; lia | exact Hr] |].
    inversion HF as [|g0 f0 gs' r0 Hcut HF']; subst.
    destruct Hcut as [(pieces & last & -> & Hp & Hl & Hll)
                        (before & after & Ht & Hbe & Haf)].
    exists ((piece bpl b f :: pieces ++ [last]) :: gs').
    split; [reflexivity|]. constructor; [|exact HF']. split.
    + exists (piece bpl b f :: pieces), last. repeat split; try assumption.
      constructor; [|exact Hp]. cbn [piece MF len]. split; [reflexivity|lia].
    + cbn [map piece text]. rewrite Ht. cbn [remainder text].
      destruct (len f - (bpl - b) <=? bpl - b).
      * exists [], (before ++ [""] ++ after)%list.
        repeat split; [constructor|].
        apply Forall_app. split; [exact Hbe|].
        constructor; [reflexivity | exact Haf].
      * exists ("" :: before), after.
        repeat split; [|exact Haf]. constructor; [reflexivity | exact Hbe].
Qed.

(** For every valid spec the fragments fall into consecutive groups, one
    for each field in the order of the fields, and in each group all
    fragments but the last have more fragments to come and the last has not,
    all have a positive width, and exactly one carries the text of the
    field. *)
Theorem fragments_of_a_field (spec : string) (p : Protocol) :
  __init__ spec = Ok p ->
  exists frags p',
    _process_field_list p = Some (frags, p')
    /\ exists groups,
        List.concat groups = frags /\ Forall2 cut_up groups (field_list p).
Proof.
  intros Hp. destruct (init_parsed spec p Hp) as [Hb _ _ Hpos _ _ _ _ _].
  destruct (process_spec p Hb) as (frags & l' & Hrun & HA).
  exists frags, (set_field_list p l'). split; [exact Hrun|].
  exact (Alloc_cut_up _ _ _ _ _ HA ltac:(lia) Hpos).
Qed.

Lemma fragments_of_a_field_witness :
  exists frags p',
    _process_field_list
      (mkProtocol "+" "+" "+" "-" "|" 8 1 true true true
         [mkField "A" 3 None; mkField "B" 20 None]) = Some (frags, p')
    /\ exists groups,
        List.concat groups = frags
        /\ Forall2 cut_up groups [mkField "A" 3 None; mkField "B" 20 None].
Proof.
  exact (fragments_of_a_field "A:3,B:20?bits=8" _ eq_refl).
Defined.

(** *** Printing again *)

(** What the allocation leaves of a field: not more bits than it had, at
    least one, and its text or none. *)
Lemma Alloc_shrinks (bpl b : Z) (l frags l' : list field) :
  Alloc bpl b l frags l' ->
  0 <= b < bpl -> positive_fields l ->
  Forall2 (fun f' f => 0 < len f' <= len f
                       /\ (text f' = text f \/ text f' = ""))
    l' l.
Proof.
  induction 1 as [b | b f r frags r' Hfit _ IH | b f r frags r' Hfit Hblk _ IH
                 | b f r frags r' Hfit Hblk _ IH];
    intros Hb Hpos.
  - constructor.
  - inversion Hpos as [|? ? Hf Hr]; subst. apply Z.leb_le in Hfit.
    constructor; [cbn; split; [lia | left; reflexivity]|].
    apply IH; [destruct (Z.eqb_spec (b + len f) bpl); lia | exact Hr].
  - inversion Hpos as [|? ? Hf Hr]; subst.
    constructor; [cbn; split; [lia | left; reflexivity]|].
    apply IH; [lia | exact Hr].
  - inversion Hpos as [|? ? Hf Hr]; subst. apply Z.leb_gt in Hfit.
    assert (Hrem : positive_fields (remainder bpl b f :: r))
      by (constructor; [cbn [remainder len]; lia | exact Hr]).
    specialize (IH ltac:(lia) Hrem).
    inversion IH as [|f' ? r0 ? [Hlen Htext] Hrest]; subst.
    constructor; [|exact Hrest].
    cbn [remainder len text] in *. split; [lia|].
    destruct (len f - (bpl - b) <=? bpl - b); tauto.
Qed.

(** A print leaves the object as the constructor left it, but for the
    fields, which stay positive.  What it returns is a text or an
    [OverflowError]. *)
Lemma str_keeps_parsed (p : Protocol) :
  parsed p ->
  exists r p',
    __str__ p = Some (r, p')
    /\ parsed p'
    /\ r <> Raise AssertionError /\ r <> Raise IndexError
    /\ r <> Raise KeyError.
Proof.
  intros Hp.
  destruct (str_outcome p Hp) as (r & p' & Hr & Hsafe).
  destruct Hp as [Hb Hph Hltr Hpos Hs He Ho Hv Hsep].
  destruct (process_spec p Hb) as (frags & l' & Hrun & HA).
  destruct (str_state p frags _ Hrun) as [out' Hout].
  rewrite Hr in Hout. injection Hout as <- ->.
  pose proof (Alloc_shrinks _ _ _ _ _ HA ltac:(lia) Hpos) as Hshr.
  exists r, (set_field_list p l'). split; [exact Hr|]. split.
  - constructor; cbn [bits_per_line ph_num_per_bit do_left_to_right_print
                        field_list hdr_char_start hdr_char_end
                        hdr_char_fill_odd hdr_char_fill_even hdr_char_sep
                        set_field_list]; try assumption.
    clear -Hshr. induction Hshr as [|f' f r' r0 [Hlen _] _ IH];
      constructor; (lia || assumption).
  - destruct r as [out|e]; [repeat split; discriminate|].
    destruct Hsafe as [-> _]. repeat split; discriminate.
Qed.

(** An object that was constructed can be printed any number of times.
    Each print rewrites the field list, and still no print runs into the
    [assert], into an index out of range or into a missing key.  (The prints
    need not return the same text.) *)
Theorem printing_again (spec : string) (p : Protocol) (k : nat) :
  __init__ spec = Ok p ->
  exists outs,
    prints k p = Some outs
    /\ List.length outs = k
    /\ Forall (fun r => r <> Raise AssertionError /\ r <> Raise IndexError
                        /\ r <> Raise KeyError) outs.
Proof.
  intros Hp. pose proof (init_parsed spec p Hp) as Hparsed.
  clear Hp. revert p Hparsed.
  induction k as [|k IH]; intros p Hparsed.
  - exists []. repeat split. constructor.
  - destruct (str_keeps_parsed p Hparsed) as (r & p' & Hstr & Hparsed' & Hr).
    destruct (IH p' Hparsed') as (outs & Houts & Hlen & Hall).
    exists (r :: outs). cbn [prints]. rewrite Hstr, Houts.
    split; [reflexivity|]. split; [cbn; congruence|].
    constructor; assumption.
Qed.

Lemma printing_again_witness :
  exists outs,
    prints 3 (mkProtocol "+" "+" "+" "-" "|" 8 1 true true true
                [mkField "A" 3 None; mkField "B" 12 None])
    = Some outs
    /\ List.length outs = 3%nat
    /\ Forall (fun r => r <> Raise AssertionError /\ r <> Raise IndexError
                        /\ r <> Raise KeyError) outs.
Proof.
  exact (printing_again "A:3,B:12?bits=8" _ 3 eq_refl).
Defined.

(* ================================================================= *)
(** ** More about the renderer *)

(** *** Cells *)





Lemma but_last_take (s : string) :
  Py.slice_to s (-1) = Py.take (Nat.pred (String.length s)) s.
Proof.
  unfold Py.slice_to, Py.norm_index, Py.len. cbn [Z.ltb Z.compare].
  f_equal. lia.
Qed.





(** *** Borders and rulers *)

Lemma app_assoc_str (a b c : string) : (a ++ b) ++ c = a ++ b ++ c.
Proof. induction a as [|x a IH]; cbn; [|rewrite IH]; reflexivity. Qed.

Lemma take_app (s t : string) : Py.take (String.length s) (s ++ t) = s.
Proof.
  induction s as [|x s IH]; cbn; [destruct t; reflexivity|].
  rewrite IH. reflexivity.
Qed.

Lemma but_last_app (s o : string) :
  Py.len o = 1 -> Py.slice_to (s ++ o) (-1) = s.
Proof.
  intros Ho. rewrite but_last_take.
  pose proof (len_app s o) as Hl. unfold Py.len in Hl, Ho.
  replace (Nat.pred (String.length (s ++ o))) with (String.length s) by lia.
  apply take_app.
Qed.

Lemma repeat_join (e o : string) (k : nat) :
  Py.repeat_nat (e ++ o) (S k) = Py.join o (repeat e (S k)) ++ o.
Proof.
  induction k as [|k IH].
  - cbn [Py.repeat_nat repeat Py.join]. rewrite app_empty_r. reflexivity.
  - change (Py.repeat_nat (e ++ o) (S (S k)))
      with ((e ++ o) ++ Py.repeat_nat (e ++ o) (S k)).
    rewrite IH.
    change (Py.join o (repeat e (S (S k))))
      with (e ++ o ++ Py.join o (repeat e (S k))).
    rewrite !app_assoc_str. reflexivity.
Qed.

(** The border over [w] bits is nothing when [w] is not positive;
    otherwise it is the start character, [w] even fill characters with an
    odd fill character between each two of them, and the end character:
    [2w + 1] characters. *)
Theorem horizontal_border (self : Protocol) (w : Z) :
  parsed self ->
  (w <= 0 -> _get_horizontal self (Some w) = "")
  /\ (0 < w ->
      _get_horizontal self (Some w)
      = hdr_char_start self
          ++ Py.join (hdr_char_fill_odd self)
               (repeat (hdr_char_fill_even self) (Z.to_nat w))
          ++ hdr_char_end self
      /\ Py.len (_get_horizontal self (Some w)) = 2 * w + 1).
Proof.
  intros Hself. split; [apply horizontal_none|]. intros Hw.
  split; [|exact (len_horizontal self Hself w Hw)].
  destruct Hself as [_ Hph Hltr _ _ _ Ho _ _].
  unfold _get_horizontal. rewrite Hltr, Hph.
  destruct (Z.leb_spec w 0); [lia|].
  unfold Py.mul. rewrite Z.mul_1_r.
  destruct (Z.to_nat w) as [|k] eqn:E; [lia|].
  rewrite repeat_join, but_last_app by exact Ho. reflexivity.
Qed.

Lemma horizontal_border_witness :
  (3 <= 0 -> _get_horizontal initial (Some 3) = "")
  /\ (0 < 3 ->
      _get_horizontal initial (Some 3) = "+-+-+-+"
      /\ Py.len (_get_horizontal initial (Some 3)) = 7).
Proof.
  exact (horizontal_border initial 3 initial_parsed).
Defined.

Lemma len_fold_columns (f : string -> Z -> string) (l : list Z) :
  (forall line i, Py.len (f line i) = Py.len line + 2) ->
  forall init,
    Py.len (fold_left f l init) = Py.len init + 2 * Z.of_nat (List.length l).
Proof.
  intros Hf. induction l as [|i l IH]; intros init; cbn [fold_left List.length].
  - lia.
  - rewrite IH, Hf. lia.
Qed.

Lemma length_range (n : Z) : Z.of_nat (List.length (range n)) = Z.max 0 n.
Proof. unfold range. rewrite length_map, length_seq. lia. Qed.

Lemma str_not_empty (i : Z) : Py.str i <> "".
Proof.
  destruct i as [|p|p]; [discriminate | | discriminate].
  unfold Py.str. cbn [Z.to_int NilEmpty.string_of_int].
  pose proof (Unsigned.to_uint_nonnil p) as Hn.
  destruct (Pos.to_uint p); [congruence| discriminate ..].
Qed.

Lemma len_first_char (s : string) : s <> "" -> Py.len (first_char s) = 1.
Proof. destruct s; [congruence | reflexivity]. Qed.

Lemma length_drop (n : nat) (s : string) :
  String.length (Py.drop n s) = (String.length s - n)%nat.
Proof.
  revert s. induction n as [|n IH]; intros [|c s]; cbn; try reflexivity.
  apply IH.
Qed.

Lemma len_last_char (s : string) :
  s <> "" -> Py.len (Py.slice_from s (-1)) = 1.
Proof.
  intros Hs. unfold Py.slice_from, Py.norm_index, Py.len.
  cbn [Z.ltb Z.compare]. rewrite length_drop.
  destruct s; [congruence|]. cbn [String.length]. lia.
Qed.

(** The two rows of the ruler are switched on and off together. *)
Lemma init_rows (spec : string) (p : Protocol) :
  __init__ spec = Ok p -> do_print_top_tens p = do_print_top_units p.
Proof.
  unfold __init__, parse_spec.
  destruct (if Py.contains "?" spec then _ else _) as [[fields opts]|];
    cbn [bind fst snd]; [|discriminate].
  destruct (for_each (parse_item spec) (Py.split "," fields) initial)
    as [s|] eqn:E; cbn [bind]; [|discriminate].
  assert (Hs : do_print_top_tens s = do_print_top_units s).
  { revert E.
    apply (for_each_inv (parse_item spec)
             (fun s => do_print_top_tens s = do_print_top_units s));
      [|reflexivity].
    intros s0 item s1 Hs0. unfold parse_item.
    destruct (Py.split ":" item) as [|t [|bits [|? ?]]]; try discriminate.
    destruct (Py.int bits) as [n|]; [|discriminate].
    destruct (n <=? 0); [discriminate|].
    intros [= <-]. exact Hs0. }
  destruct opts as [o|]; [|intros [= <-]; exact Hs].
  apply (for_each_inv parse_opt
           (fun s => do_print_top_tens s = do_print_top_units s));
    [|exact Hs].
  clear. intros s opt s' Hs. unfold parse_opt.
  destruct (Py.split "=" opt) as [|var [|value [|? ?]]]; try discriminate.
  repeat match goal with
         | |- context [if ?x then _ else _] => destruct x
         | |- context [match Py.int ?v with _ => _ end] => destruct (Py.int v)
         end; try discriminate; intros [= <-]; (exact Hs || reflexivity).
Qed.

(** The ruler of a constructed object.  It is printed with both of its
    rows or not at all.  When it is printed, it is the row of the tens, a
    newline, and the row of the units, and each row takes two places for
    each bit of the line, as the cells under it do. *)
Theorem top_numbers (spec : string) (self : Protocol) :
  __init__ spec = Ok self ->
  match _get_top_numbers self with
  | None => do_print_top_tens self = false /\ do_print_top_units self = false
  | Some ruler =>
      do_print_top_tens self = true /\ do_print_top_units self = true
      /\ exists tens units,
          ruler = (tens ++ nl) ++ units
          /\ Py.len tens = 2 * bits_per_line self
          /\ Py.len units = 2 * bits_per_line self
  end.
Proof.
  intros Hinit. pose proof (init_rows spec self Hinit) as Hrows.
  destruct (init_parsed spec self Hinit) as [Hb Hph Hltr _ _ _ _ _ _].
  unfold _get_top_numbers.
  rewrite Hltr, Hph, <- Hrows. change (1 * 2 - 1) with 1.
  set (tens := fold_left _ (range (bits_per_line self)) "").
  set (units := fold_left _ (range (bits_per_line self)) "").
  assert (Htens : Py.len tens = 2 * bits_per_line self).
  { unfold tens. rewrite len_fold_columns.
    - rewrite length_range. change (Py.len "") with 0. lia.
    - intros line i.
      destruct (String.eqb (Py.slice_from (Py.str i) (-1)) "0").
      + rewrite !len_app, len_first_char by apply str_not_empty.
        reflexivity.
      + rewrite len_app. reflexivity. }
  assert (Hunits : Py.len units = 2 * bits_per_line self).
  { unfold units. rewrite len_fold_columns.
    - rewrite length_range. change (Py.len "") with 0. lia.
    - intros line i.
      rewrite !len_app, len_last_char by apply str_not_empty.
      reflexivity. }
  clearbody tens units.
  destruct (do_print_top_tens self); cbv zeta.
  - assert (Hlen : Py.len ((tens ++ nl) ++ units)
                   = 4 * bits_per_line self + 1)
      by (rewrite !len_app, Htens, Hunits; change (Py.len nl) with 1; lia).
    destruct (Z.ltb_spec 0 (Py.len ((tens ++ nl) ++ units))); [|lia].
    split; [reflexivity|]. split; [reflexivity|].
    exists tens, units. repeat split; assumption.
  - split; reflexivity.
Qed.

Lemma top_numbers_witness :
  match _get_top_numbers
          (mkProtocol "+" "+" "+" "-" "|" 12 1 true true true
             [mkField "A" 3 None]) with
  | None => true = false /\ true = false
  | Some ruler =>
      true = true /\ true = true
      /\ exists tens units,
          ruler = (tens ++ nl) ++ units
          /\ Py.len tens = 2 * 12
          /\ Py.len units = 2 * 12
  end.
Proof.
  exact (top_numbers "A:3?bits=12" _ eq_refl).
Defined.

(** *** The shape of the diagram *)












Lemma parsed_after (p : Protocol) (frags l' : list field) :
  parsed p ->
  Alloc (bits_per_line p) 0 (field_list p) frags l' ->
  parsed (set_field_list p l').
Proof.
  intros [Hb Hph Hltr Hpos Hs He Ho Hv Hsep] HA.
  pose proof (Alloc_shrinks _ _ _ _ _ HA ltac:(lia) Hpos) as Hshr.
  constructor; cbn [bits_per_line ph_num_per_bit do_left_to_right_print
                      field_list hdr_char_start hdr_char_end
                      hdr_char_fill_odd hdr_char_fill_even hdr_char_sep
                      set_field_list]; try assumption.
  clear -Hshr. induction Hshr as [|f' f r' r0 [Hlen _] _ IH];
    constructor; (lia || assumption).
Qed.



(** Without the condition on the labels the rectangle is broken.  The
    field of ["ABCDEFGHIJKLMNOPQRS:16?bits=8"] takes two whole lines; its
    label of 19 characters is cut to the 31 places of the field, not to the
    15 of a line, and the row that holds it is longer than the border. *)
Lemma long_label_breaks_rectangle :
  exists p p',
    __init__ "ABCDEFGHIJKLMNOPQRS:16?bits=8" = Ok p
    /\ __str__ p
       = Some (Ok (Py.join nl [" 0              ";
                               " 0 1 2 3 4 5 6 7";
                               "+-+-+-+-+-+-+-+-+";
                               "|               |";
                               "+ABCDEFGHIJKLMNOPQRS+";
                               "|               |";
                               "+-+-+-+-+-+-+-+-+"]), p').
Proof. eexists _, _. split; reflexivity. Qed.

(** *** What a print costs *)

Lemma sum_len_map_seen (l : list field) : sum_len (map seen l) = sum_len l.
Proof.
  unfold sum_len. induction l as [|f l IH]; cbn [map fold_right seen len];
    [reflexivity | rewrite IH; reflexivity].
Qed.

Lemma Alloc_sum (bpl b : Z) (l frags l' : list field) :
  Alloc bpl b l frags l' ->
  0 <= b < bpl -> positive_fields l ->
  sum_len l' <= sum_len l
  /\ (sum_len l' = sum_len l -> l' = map seen l).
Proof.
  induction 1 as [b | b f r frags r' Hfit _ IH | b f r frags r' Hfit Hblk _ IH
                 | b f r frags r' Hfit Hblk _ IH];
    intros Hb Hpos.
  - split; [lia | reflexivity].
  - inversion Hpos as [|? ? Hf Hr]; subst. apply Z.leb_le in Hfit.
    destruct IH as [Hle Heq];
      [destruct (Z.eqb_spec (b + len f) bpl); lia | exact Hr |].
    cbn [map sum_len fold_right seen len] in *.
    fold (sum_len r) (sum_len r') in *.
    split; [lia|]. intros H. rewrite Heq by lia. reflexivity.
  - inversion Hpos as [|? ? Hf Hr]; subst.
    destruct IH as [Hle Heq]; [lia | exact Hr |].
    cbn [map sum_len fold_right seen len] in *.
    fold (sum_len r) (sum_len r') in *.
    split; [lia|]. intros H. rewrite Heq by lia. reflexivity.
  - inversion Hpos as [|? ? Hf Hr]; subst. apply Z.leb_gt in Hfit.
    destruct IH as [Hle _];
      [lia | constructor; [cbn [remainder len]; lia | exact Hr] |].
    cbn [sum_len fold_right remainder len] in *.
    fold (sum_len r) (sum_len r') in *.
    split; [lia|]. intros H. lia.
Qed.

(** A print never adds bits to the fields of the object, and it keeps
    their number exactly when it changes nothing in the field list but the
    ['MF'] keys: a print that splits a field leaves an object that describes
    fewer bits than before. *)
Theorem print_loses_bits (spec : string) (p : Protocol) :
  __init__ spec = Ok p ->
  exists r p',
    __str__ p = Some (r, p')
    /\ sum_len (field_list p') <= sum_len (field_list p)
    /\ (sum_len (field_list p') = sum_len (field_list p)
        <-> field_list p' = map seen (field_list p)).
Proof.
  intros Hp. destruct (init_parsed spec p Hp) as [Hb _ _ Hpos _ _ _ _ _].
  destruct (process_spec p Hb) as (frags & l' & Hrun & HA).
  destruct (str_state p frags _ Hrun) as [r Hr].
  destruct (Alloc_sum _ _ _ _ _ HA ltac:(lia) Hpos) as [Hle Heq].
  exists r, (set_field_list p l'). split; [exact Hr|].
  cbn [field_list set_field_list]. split; [exact Hle|].
  split; [exact Heq|]. intros ->. apply sum_len_map_seen.
Qed.

Lemma print_loses_bits_witness :
  exists r p',
    __str__ (mkProtocol "+" "+" "+" "-" "|" 32 1 true true true
               [mkField "A" 40 None])
    = Some (r, p')
    /\ sum_len (field_list p') <= 40
    /\ (sum_len (field_list p') = 40
        <-> field_list p' = [mkField "A" 40 (Some false)]).
Proof.
  exact (print_loses_bits "A:40" _ eq_refl).
Defined.

(** *** Prints settle *)

Lemma Alloc_det (bpl b : Z) (l frags1 l1 : list field) :
  Alloc bpl b l frags1 l1 ->
  forall frags2 l2,
    Alloc bpl b l frags2 l2 -> frags1 = frags2 /\ l1 = l2.
Proof.
  induction 1 as [b | b f r frags r' Hfit _ IH | b f r frags r' Hfit Hblk _ IH
                 | b f r frags r' Hfit Hblk _ IH];
    intros frags2 l2 H2; inversion H2; subst; try congruence.
  - split; reflexivity.
  - destruct (IH _ _ ltac:(eassumption)) as [-> ->]. split; reflexivity.
  - destruct (IH _ _ ltac:(eassumption)) as [-> ->]. split; reflexivity.
  - destruct (IH _ _ ltac:(eassumption)) as [-> ->]. split; reflexivity.
Qed.

Lemma length_map_seen_sum (l' l : list field) :
  Forall2 (fun f' f => 0 < len f' <= len f
                       /\ (text f' = text f \/ text f' = "")) l' l ->
  List.length l' = List.length l.
Proof. induction 1; cbn [List.length]; congruence. Qed.

(** An allocation that has split no field goes the same way again. *)
Lemma Alloc_again (bpl b : Z) (l frags l' : list field) :
  Alloc bpl b l frags l' ->
  0 <= b < bpl -> positive_fields l ->
  l' = map seen l ->
  Alloc bpl b (map seen l) frags (map seen l).
Proof.
  induction 1 as [b | b f r frags r' Hfit HA IH | b f r frags r' Hfit Hblk HA IH
                 | b f r frags r' Hfit Hblk HA IH];
    intros Hb Hpos Heq.
  - constructor.
  - inversion Hpos as [|? ? Hf Hr]; subst.
    cbn [map] in Heq |- *.
    assert (Heq' : r' = map seen r) by congruence.
    change (seen f :: frags) with (seen (seen f) :: frags).
    change (seen f :: map seen r) with (seen (seen f) :: map seen r) at 2.
    apply Alloc_fit; [exact Hfit|]. cbn [seen len].
    apply IH; [|exact Hr|exact Heq'].
    apply Z.leb_le in Hfit.
    destruct (Z.eqb_spec (b + len f) bpl); lia.
  - inversion Hpos as [|? ? Hf Hr]; subst.
    cbn [map] in Heq |- *.
    assert (Heq' : r' = map seen r) by congruence.
    change (seen f :: frags) with (seen (seen f) :: frags).
    change (seen f :: map seen r) with (seen (seen f) :: map seen r) at 2.
    apply Alloc_block; [exact Hfit | exact Hblk |].
    apply IH; [lia | exact Hr | exact Heq'].
  - inversion Hpos as [|? ? Hf Hr]; subst. apply Z.leb_gt in Hfit.
    exfalso.
    destruct (Alloc_sum _ _ _ _ _ HA ltac:(lia)) as [Hle _].
    { constructor; [cbn [remainder len]; lia | exact Hr]. }
    rewrite sum_len_map_seen in Hle.
    cbn [sum_len fold_right remainder len] in Hle. lia.
Qed.

(** After a print that has split no field, every print returns the same
    and leaves the object as it is. *)
Lemma settled (p : Protocol) (frags l' : list field) :
  0 < bits_per_line p -> positive_fields (field_list p) ->
  Alloc (bits_per_line p) 0 (field_list p) frags l' ->
  l' = map seen (field_list p) ->
  exists out,
    __str__ (set_field_list p l') = Some (out, set_field_list p l').
Proof.
  intros Hb Hpos HA Heq.
  pose proof (Alloc_again _ _ _ _ _ HA ltac:(lia) Hpos Heq) as HA'.
  rewrite <- Heq in HA'.
  destruct (process_spec (set_field_list p l') Hb)
    as (frags2 & l2 & Hrun & HA2).
  cbn [bits_per_line field_list set_field_list] in HA2.
  destruct (Alloc_det _ _ _ _ _ HA' _ _ HA2) as [<- <-].
  destruct (str_state _ _ _ Hrun) as [out Hout].
  exists out. exact Hout.
Qed.

Lemma prints_settle_from (n : nat) :
  forall p,
    parsed p ->
    sum_len (field_list p)
    <= Z.of_nat (List.length (field_list p)) + Z.of_nat n ->
    exists k q out,
      (k <= S n)%nat /\ printed k p = Some q /\ __str__ q = Some (out, q).
Proof.
  induction n as [|n IH]; intros p Hparsed Hslack;
    pose proof Hparsed as [Hb _ _ Hpos _ _ _ _ _];
    destruct (process_spec p Hb) as (frags & l' & Hrun & HA);
    destruct (str_state p frags _ Hrun) as [r Hr];
    destruct (Alloc_sum _ _ _ _ _ HA ltac:(lia) Hpos) as [Hle Heq];
    pose proof (Alloc_shrinks _ _ _ _ _ HA ltac:(lia) Hpos) as Hshr;
    pose proof (length_map_seen_sum _ _ Hshr) as Hlen;
    pose proof (parsed_after p frags l' Hparsed HA) as Hparsed';
    assert (Hlow : Z.of_nat (List.length l') <= sum_len l')
      by (destruct Hparsed' as [_ _ _ Hpos' _ _ _ _ _];
          cbn [field_list set_field_list] in Hpos';
          clear -Hpos'; induction Hpos' as [|f l Hf _ IH];
          cbn [List.length sum_len fold_right] in *;
          [lia | fold (sum_len l); lia]);
    destruct (Z.eq_dec (sum_len l') (sum_len (field_list p))) as [Hsame|Hless].
  - destruct (settled p frags l' Hb Hpos HA (Heq Hsame)) as [out Hout].
    exists 1%nat, (set_field_list p l'), out.
    split; [lia|]. split; [cbn [printed]; rewrite Hr; reflexivity | exact Hout].
  - lia.
  - destruct (settled p frags l' Hb Hpos HA (Heq Hsame)) as [out Hout].
    exists 1%nat, (set_field_list p l'), out.
    split; [lia|]. split; [cbn [printed]; rewrite Hr; reflexivity | exact Hout].
  - destruct (IH (set_field_list p l') Hparsed') as (k & q & out & Hk & Hq & Hfix).
    { cbn [field_list set_field_list]. lia. }
    exists (S k), q, out. split; [lia|].
    split; [cbn [printed]; rewrite Hr; exact Hq | exact Hfix].
Qed.

(** Prints settle.  Each print may change the object, but only so often:
    after at most one print more than the fields have bits beyond one bit
    each, the object is one that a print returns unchanged, so that every
    later print returns the same as the one before. *)
Theorem prints_settle (spec : string) (p : Protocol) :
  __init__ spec = Ok p ->
  exists k q out,
    Z.of_nat k
    <= 1 + sum_len (field_list p) - Z.of_nat (List.length (field_list p))
    /\ printed k p = Some q
    /\ __str__ q = Some (out, q).
Proof.
  intros Hp. pose proof (init_parsed spec p Hp) as Hparsed.
  assert (Hlow : Z.of_nat (List.length (field_list p))
                 <= sum_len (field_list p)).
  { destruct Hparsed as [_ _ _ Hpos _ _ _ _ _].
    induction Hpos as [|f l Hf _ IH];
      cbn [List.length sum_len fold_right] in *;
      [lia | fold (sum_len l); lia]. }
  destruct (prints_settle_from
              (Z.to_nat (sum_len (field_list p)
                         - Z.of_nat (List.length (field_list p))))
              p Hparsed ltac:(lia))
    as (k & q & out & Hk & Hq & Hfix).
  exists k, q, out. split; [lia|]. split; assumption.
Qed.

Lemma prints_settle_witness :
  exists k q out,
    Z.of_nat k <= 1 + 24 - 2
    /\ printed k (mkProtocol "+" "+" "+" "-" "|" 8 1 true true true
                    [mkField "A" 12 None; mkField "B" 12 None])
       = Some q
    /\ __str__ q = Some (out, q).
Proof.
  exact (prints_settle "A:12,B:12?bits=8" _ eq_refl).
Defined.
